(** * Node and chain selection: filters, strategies and the health checker

    A shallow embedding of package [selector] (filter.go, strategy.go and
    the health checker that follows it in the same source file) together
    with the properties its specification states about them.

    Conventions.
    - Go's [int], [int64], [uint64] and [time.Duration] are modelled as [Z];
      wrap-around and saturation are written out where the code relies on
      them.
    - An interface value that may be [nil] is an [option].
    - A run-time type assertion [any(v).(I)] is a function [T -> option _]
      of the candidate class below.
    - An expression that panics at run time (index out of range, [Intn] of a
      non-positive bound) evaluates to [None]. *)

From Stdlib Require Import ZArith List Bool Lia Ascii String.
From stdpp Require Import base option list gmap strings.

Local Open Scope Z_scope.

(** ** Go primitives *)

Definition MaxInt64 : Z := 2 ^ 63 - 1.
Definition MinInt64 : Z := - 2 ^ 63.
Definition MaxUint64 : Z := 2 ^ 64 - 1.

Definition int64_range (z : Z) : Prop := MinInt64 <= z <= MaxInt64.

(** Arithmetic on [uint64] is modulo [2^64]. *)
Definition uint64 (z : Z) : Z := z mod 2 ^ 64.

(** [t.Sub(u)]: the difference of two instants (in nanoseconds), saturated
    to the range of [time.Duration]. *)
Definition time_Sub (t u : Z) : Z :=
  let d := t - u in
  if d <? MinInt64 then MinInt64
  else if MaxInt64 <? d then MaxInt64
  else d.

(** [time.Since(t)] is [time.Now().Sub(t)]; the clock reading is passed in. *)
Definition time_Since (now t : Z) : Z := time_Sub now t.

(** [s[i]] on a slice: a panic when [i] is out of range. *)
Definition index {A : Type} (s : list A) (i : Z) : option A :=
  if i <? 0 then None else s !! Z.to_nat i.

(** [len(s)] as a Go [int].  A length is never negative, so its conversion
    [uint64(len(s))] is the length itself. *)
Definition len {A : Type} (s : list A) : Z := Z.of_nat (length s).

(** ** Candidates and their optional capabilities *)

(** The failure state read through [selector.Marker]: [Count()] and
    [Time()] (an instant, in nanoseconds). *)
Record Marker : Type := mkMarker { Count : Z; Time : Z }.

(** Package constants declared next to the selector itself. *)
Class SelectorConsts : Type := {
  labelWeight : string;
  labelBackup : string;
  labelMaxFails : string;
  labelFailTimeout : string;
  DefaultMaxFails : Z;
  DefaultFailTimeout : Z
}.

(** [metadata.Metadata] and the readers of package [mdutil].  A [nil]
    metadata value is [None]; [IsExists] is a method, so it needs a non-nil
    receiver. *)
Class MetadataOps (MD : Type) : Type := {
  IsExists : MD -> string -> bool;
  GetInt : option MD -> string -> Z;
  GetDuration : option MD -> string -> Z;
  GetBool : option MD -> string -> bool
}.

(** The candidate type [T].  Each [as...] function is the run-time type
    assertion to the interface of that name: [None] when [T] does not
    implement it, otherwise what its single method returns.  The two laws
    are Go's typing of [ActiveConns() int64] and [Latency() time.Duration]. *)
Class Candidate (MD T : Type) : Type := {
  zero : T;
  asMetadatable : T -> option (option MD);
  asMarkable : T -> option (option Marker);
  asConnectable : T -> option Z;
  asLatencyStater : T -> option Z;
  ActiveConns_int64 : forall v c, asConnectable v = Some c -> int64_range c;
  Latency_int64 : forall v d, asLatencyStater v = Some d -> int64_range d
}.

(** [math/rand.Rand]: [Intn r n] is the generator after the draw and the
    number drawn, which lies in [[0, n)] for a positive [n]. *)
Class RandSource (R : Type) : Type := {
  Intn : R -> Z -> R * Z;
  Intn_range : forall r n, 0 < n -> 0 <= snd (Intn r n) < n
}.

(** [r.Intn(n)] panics when [n <= 0]. *)
Definition rand_Intn {R : Type} `{RandSource R} (r : R) (n : Z)
  : option (R * Z) :=
  if n <=? 0 then None else Some (Intn r n).

(** ** filter.go *)

Section Filters.
Context {MD T : Type} `{SelectorConsts} `{MetadataOps MD} `{Candidate MD T}.

Record failFilter : Type := FailFilter { maxFails : Z; failTimeout : Z }.

(** The per-candidate [maxFails] and [failTimeout] of [failFilter.Filter]:
    the filter's fields, overridden by the candidate's metadata when the
    key exists, then coerced when not positive. *)
Definition failFilter_limits (f : failFilter) (v : T) : Z * Z :=
  let maxFails0 := maxFails f in
  let failTimeout0 := failTimeout f in
  let '(maxFails1, failTimeout1) :=
    match asMetadatable v with
    | Some (Some md) =>
        (if IsExists md labelMaxFails
         then GetInt (Some md) labelMaxFails else maxFails0,
         if IsExists md labelFailTimeout
         then GetDuration (Some md) labelFailTimeout else failTimeout0)
    | _ => (maxFails0, failTimeout0)
    end in
  (if maxFails1 <=? 0 then 1 else maxFails1,
   if failTimeout1 <=? 0 then DefaultFailTimeout else failTimeout1).

(** One iteration of the loop of [failFilter.Filter]; [l] is the slice
    built so far. *)
Definition failFilter_body (f : failFilter) (now : Z) (l : list T) (v : T)
  : list T :=
  let '(maxFails', failTimeout') := failFilter_limits f v in
  match asMarkable v with
  | Some (Some marker) =>
      if (Count marker <? maxFails')
         || (failTimeout' <=? time_Since now (Time marker))
      then l ++ [v]
      else l
  | _ => l ++ [v]
  end.

Definition failFilter_Filter (f : failFilter) (now : Z) (vs : list T)
  : list T :=
  if len vs <=? 1 then vs
  else fold_left (failFilter_body f now) vs [].

Record healthCheckFilter : Type := HealthCheckFilter { hc_maxFails : Z }.

Definition healthCheckFilter_maxFails (f : healthCheckFilter) : Z :=
  if hc_maxFails f <=? 0 then 1 else hc_maxFails f.

Definition healthCheckFilter_body (maxFails' : Z) (l : list T) (v : T)
  : list T :=
  match asMarkable v with
  | Some (Some marker) =>
      if Count marker <? maxFails' then l ++ [v] else l
  | _ => l ++ [v]
  end.

Definition healthCheckFilter_Filter (f : healthCheckFilter) (vs : list T)
  : list T :=
  if len vs <=? 1 then vs
  else
    let maxFails' := healthCheckFilter_maxFails f in
    let l := fold_left (healthCheckFilter_body maxFails') vs [] in
    if len l =? 0 then vs else l.

(** The condition under which [backupFilter.Filter] appends a candidate
    to [backups]. *)
Definition isBackup (v : T) : bool :=
  match asMetadatable v with
  | Some md => GetBool md labelBackup
  | None => false
  end.

Definition backupFilter_body (acc : list T * list T) (v : T)
  : list T * list T :=
  let '(l, backups) := acc in
  if isBackup v then (l, backups ++ [v]) else (l ++ [v], backups).

Definition backupFilter_Filter (vs : list T) : list T :=
  if len vs <=? 1 then vs
  else
    let '(l, backups) := fold_left backupFilter_body vs ([], []) in
    if len l =? 0 then backups else l.

End Filters.

(** ** strategy.go *)

(** [hash/crc32.ChecksumIEEE]: the reflected CRC-32 with polynomial
    [0xEDB88320], initial value and final xor [0xFFFFFFFF], one bit at a
    time. *)
Definition crc32_bit (crc : Z) : Z :=
  if Z.testbit crc 0 then Z.lxor (Z.shiftr crc 1) 0xEDB88320
  else Z.shiftr crc 1.

Definition crc32_byte (crc : Z) (b : Z) : Z :=
  Nat.iter 8 crc32_bit (Z.lxor crc b).

Definition ChecksumIEEE (data : list Z) : Z :=
  Z.lxor (fold_left crc32_byte data 0xFFFFFFFF) 0xFFFFFFFF.

(** [[]byte(s)] for a string. *)
Definition bytes_of_string (s : string) : list Z :=
  List.map (fun c => Z.of_N (N_of_ascii c)) (list_ascii_of_string s).

(** Modelled from the spec: the routing hash a selection call's context may
    carry (package [xctx] is not part of the sources at hand).  A context is
    the hash it holds, if any; [HashFromContext] reads it. *)
Record Hash : Type := mkHash { Source : string }.

Definition Ctx : Type := option Hash.

Definition HashFromContext (ctx : Ctx) : option Hash := ctx.

Section Strategies.
Context {MD T R : Type} `{SelectorConsts} `{MetadataOps MD} `{Candidate MD T}
  `{RandSource R}.

(** [roundRobinStrategy]: the state is the [uint64] counter.  Returns the
    counter after the call and the value returned. *)
Definition roundRobinStrategy_Apply (counter : Z) (vs : list T)
  : Z * option T :=
  if len vs =? 0 then (counter, Some zero)
  else
    let counter' := uint64 (counter + 1) in
    let n := uint64 (counter' - 1) in
    (counter', index vs (n mod len vs)).

Definition fifoStrategy_Apply (vs : list T) : option T :=
  if len vs =? 0 then Some zero else index vs 0.

(** [hashStrategy]: the state is the generator [r].  The trace line written
    to the default logger is left out. *)
Definition hashStrategy_Apply (r : R) (ctx : Ctx) (vs : list T)
  : R * option T :=
  if len vs =? 0 then (r, Some zero)
  else
    match HashFromContext ctx with
    | Some h =>
        let value := uint64 (ChecksumIEEE (bytes_of_string (Source h))) in
        (r, index vs (value mod len vs))
    | None =>
        match rand_Intn r (len vs) with
        | Some (r', i) => (r', index vs i)
        | None => (r, None)
        end
    end.

(** The tail shared by [leastConnStrategy.Apply] and
    [leastLatencyStrategy.Apply]: the single candidate, or a random one. *)
Definition pick (r : R) (candidates : list T) : R * option T :=
  if len candidates =? 1 then (r, index candidates 0)
  else
    match rand_Intn r (len candidates) with
    | Some (r', i) => (r', index candidates i)
    | None => (r, None)
    end.

(** [conns] of one loop iteration of [leastConnStrategy.Apply]. *)
Definition connsOf (item : T) : Z :=
  match asConnectable item with
  | Some c => c
  | None => 0
  end.

Definition leastConn_body (acc : Z * list T) (item : T) : Z * list T :=
  let '(minConns, candidates) := acc in
  let conns := connsOf item in
  if conns <? minConns then (conns, [item])
  else if conns =? minConns then (minConns, candidates ++ [item])
  else (minConns, candidates).

Definition leastConnStrategy_Apply (r : R) (vs : list T) : R * option T :=
  if len vs =? 0 then (r, Some zero)
  else
    let '(_, candidates) := fold_left leastConn_body vs (MaxInt64, []) in
    pick r candidates.

(** [latency] of one loop iteration of [leastLatencyStrategy.Apply]. *)
Definition latencyOf (item : T) : Z :=
  match asLatencyStater item with
  | Some d => if d <=? 0 then MaxInt64 else d
  | None => MaxInt64
  end.

Definition leastLatency_body (acc : Z * list T) (item : T) : Z * list T :=
  let '(minLatency, candidates) := acc in
  let latency := latencyOf item in
  if latency <? minLatency then (latency, [item])
  else if latency =? minLatency then (minLatency, candidates ++ [item])
  else (minLatency, candidates).

Definition leastLatencyStrategy_Apply (r : R) (vs : list T) : R * option T :=
  if len vs =? 0 then (r, Some zero)
  else
    let '(_, candidates) := fold_left leastLatency_body vs (MaxInt64, []) in
    pick r candidates.

(** Modelled from the spec: the weighted sampler [RandomWeighted], whose
    source file is not at hand.  It holds (item, weight) pairs; [Next] draws
    a value in [[0, totalWeight)] and returns the first item whose
    cumulative weight exceeds the draw. *)
Record RandomWeighted : Type := mkRW { rw_items : list (T * Z); rw_rand : R }.

Definition rw_Reset (rw : RandomWeighted) : RandomWeighted :=
  mkRW [] (rw_rand rw).

Definition rw_Add (rw : RandomWeighted) (item : T) (weight : Z)
  : RandomWeighted :=
  mkRW (rw_items rw ++ [(item, weight)]) (rw_rand rw).

Definition rw_total (rw : RandomWeighted) : Z :=
  fold_left (fun acc iw => acc + snd iw) (rw_items rw) 0.

Fixpoint rw_scan (items : list (T * Z)) (cumulative draw : Z) : option T :=
  match items with
  | [] => None
  | (item, weight) :: rest =>
      if draw <? cumulative + weight then Some item
      else rw_scan rest (cumulative + weight) draw
  end.

Definition rw_Next (rw : RandomWeighted) : RandomWeighted * option T :=
  if len (rw_items rw) =? 0 then (rw, Some zero)
  else
    match rand_Intn (rw_rand rw) (rw_total rw) with
    | Some (r', draw) => (mkRW (rw_items rw) r', rw_scan (rw_items rw) 0 draw)
    | None => (rw, None)
    end.

(** The weight given to [vs[i]] by [randomStrategy.Apply]. *)
Definition weightOf (v : T) : Z :=
  let weight :=
    match asMetadatable v with
    | Some md => GetInt md labelWeight
    | None => 0
    end in
  if weight <=? 0 then 1 else weight.

Definition randomStrategy_Apply (rw : RandomWeighted) (vs : list T)
  : RandomWeighted * option T :=
  if len vs =? 0 then (rw, Some zero)
  else
    let rw1 := rw_Reset rw in
    let rw2 := fold_left (fun acc v => rw_Add acc v (weightOf v)) vs rw1 in
    rw_Next rw2.

(** [n] consecutive calls of [roundRobinStrategy.Apply] on the same list:
    the final counter and the values returned, oldest first. *)
Fixpoint roundRobin_run (n : nat) (counter : Z) (vs : list T)
  : Z * list (option T) :=
  match n with
  | O => (counter, [])
  | S n' =>
      let '(counter', v) := roundRobinStrategy_Apply counter vs in
      let '(counter'', rest) := roundRobin_run n' counter' vs in
      (counter'', v :: rest)
  end.

End Strategies.

(** ** The health checker *)

(** [CheckType] is a string type. *)
Definition CheckTypeTCP : string := "tcp".
Definition CheckTypeHTTP : string := "http".

Record HealthCheckConfig : Type := mkConfig {
  Interval : Z;
  Timeout : Z;
  Type_ : string;
  Path : string;
  ExpectStatus : Z
}.

(** The [cancelFunc] field only serves [Start] and [Stop]; the logger is an
    interface value, present or [nil]. *)
Record HealthChecker : Type := mkHealthChecker {
  config : HealthCheckConfig;
  logger : bool
}.

(** Errors: those of the network, and the two built with [fmt.Errorf]
    (format string and its argument). *)
Inductive error : Type :=
| NetError (msg : string)
| Errorf (format : string) (arg : Z).

(** The network as seen by one probe: [net.DialTimeout ("tcp", addr, d)],
    which fails or connects, and [client.Get url] with the client's timeout,
    which fails or answers with a status code. *)
Class Network : Type := {
  net_DialTimeout : string -> Z -> option error;
  http_Get : Z -> string -> error + Z
}.

(** Modelled from the spec: [selector.Marker]'s two mutators, declared
    outside the sources at hand.  [Mark] increments the count and sets the
    time to now; [Reset] sets the count to 0. *)
Definition Marker_Mark (now : Z) (m : Marker) : Marker :=
  mkMarker (Count m + 1) now.

Definition Marker_Reset (m : Marker) : Marker :=
  mkMarker 0 (Time m).

(** Modelled from the spec: a [chain.Node], declared outside the sources at
    hand, as far as the health checker reads it: its address, and the
    marker its [Marker()] method returns (a reference into the store of
    markers, or [nil]). *)
Record Node : Type := mkNode { Addr : string; node_marker : option nat }.

Definition Node_Marker (node : Node) : option nat := node_marker node.

(** A value of type [any] handed to the checker: a [*chain.Node] (possibly
    a nil pointer), or a value of another dynamic type, which may implement
    [selector.Markable] ([Some m], where [m] is what its [Marker()]
    returns) or not. *)
Inductive any : Type :=
| PNode (p : option Node)
| Other (markable : option (option nat)).

(** [v.( *chain.Node)]. *)
Definition as_Node (v : any) : option (option Node) :=
  match v with
  | PNode p => Some p
  | Other _ => None
  end.

(** [v.(selector.Markable)] followed by [Marker()], for the values on which
    the checker evaluates it (a non-nil node, or another type). *)
Definition any_Marker (v : any) : option (option nat) :=
  match v with
  | PNode (Some node) => Some (Node_Marker node)
  | PNode None => None
  | Other m => m
  end.

Inductive LogEntry : Type :=
| LogFailed (addr : string) (err : error)
| LogPassed (addr : string).

(** Everything a probe can change: the shared markers (by reference), the
    addresses probed over the network so far and the debug log. *)
Record World : Type := mkWorld {
  markers : gmap nat Marker;
  probed : list string;
  logs : list LogEntry
}.

Section HealthCheck.
Context `{Network}.

Definition checkTCP (hc : HealthChecker) (addr : string) : option error :=
  net_DialTimeout addr (Timeout (config hc)).

(** The [url] of [checkHTTP]. *)
Definition probe_url (hc : HealthChecker) (addr : string) : string :=
  let path :=
    if String.eqb (Path (config hc)) EmptyString then "/"%string
    else Path (config hc) in
  ("http://" ++ addr ++ path)%string.

Definition checkHTTP (hc : HealthChecker) (addr : string) : option error :=
  match http_Get (Timeout (config hc)) (probe_url hc addr) with
  | inl err => Some err
  | inr StatusCode =>
      if (0 <? ExpectStatus (config hc))
         && negb (StatusCode =? ExpectStatus (config hc))
      then Some (Errorf "unexpected status code: %d" StatusCode)
      else if (200 <=? StatusCode) && (StatusCode <? 400) then None
      else Some (Errorf "health check failed with status: %d" StatusCode)
  end.

Definition debugf (hc : HealthChecker) (e : LogEntry) (w : World) : World :=
  if logger hc then mkWorld (markers w) (probed w) (logs w ++ [e]) else w.

Definition on_marker (f : Marker -> Marker) (m : nat) (w : World) : World :=
  mkWorld (alter f m (markers w)) (probed w) (logs w).

Definition probe (addr : string) (w : World) : World :=
  mkWorld (markers w) (probed w ++ [addr]) (logs w).

(** [HealthChecker.check]; [now] is the clock read by [Mark]. *)
Definition check (hc : HealthChecker) (now : Z) (w : World) (v : any)
  : World :=
  match as_Node v with
  | None | Some None => w
  | Some (Some node) =>
      let addr := Addr node in
      if String.eqb addr EmptyString then w
      else
        let marker :=
          match Node_Marker node with
          | Some m => Some m
          | None =>
              match any_Marker v with
              | None => None
              | Some m => m
              end
          end in
        match marker with
        | None => w
        | Some m =>
            let err :=
              if String.eqb (Type_ (config hc)) CheckTypeHTTP
              then checkHTTP hc addr
              else checkTCP hc addr in
            let w := probe addr w in
            match err with
            | Some e =>
                debugf hc (LogFailed addr e) (on_marker (Marker_Mark now) m w)
            | None =>
                debugf hc (LogPassed addr) (on_marker Marker_Reset m w)
            end
        end
  end.

End HealthCheck.

(** ** The specification's reading of the filters *)

Section FilterSpec.
Context {MD T : Type} `{SelectorConsts} `{MetadataOps MD} `{Candidate MD T}.

(** The candidate's Marker, absent when the candidate is not [Markable] or
    its [Marker()] is [nil]. *)
Definition markerOf (v : T) : option Marker :=
  match asMarkable v with
  | Some (Some marker) => Some marker
  | _ => None
  end.

(** The value the candidate's metadata explicitly sets for [key], if any. *)
Definition explicitly_set (get : option MD -> string -> Z) (key : string)
  (v : T) : option Z :=
  match asMetadatable v with
  | Some (Some md) => if IsExists md key then Some (get (Some md) key) else None
  | _ => None
  end.

(** The configured value unless the metadata sets one; a non-positive
    result is replaced by [fallback]. *)
Definition effective (configured : Z) (override : option Z) (fallback : Z)
  : Z :=
  let x := match override with Some o => o | None => configured end in
  if x <=? 0 then fallback else x.

Definition effectiveMaxFails (f : failFilter) (v : T) : Z :=
  effective (maxFails f) (explicitly_set GetInt labelMaxFails v) 1.

Definition effectiveFailTimeout (f : failFilter) (v : T) : Z :=
  effective (failTimeout f) (explicitly_set GetDuration labelFailTimeout v)
    DefaultFailTimeout.

(** FailFilter keeps a candidate if its Marker is absent, or its count is
    below the effective max-fails, or the time elapsed since its last
    failure is at least the effective fail-timeout. *)
Definition spec_failFilter_keeps (f : failFilter) (now : Z) (v : T) : bool :=
  match markerOf v with
  | None => true
  | Some m =>
      (Count m <? effectiveMaxFails f v)
      || (effectiveFailTimeout f v <=? time_Since now (Time m))
  end.

(** HealthCheckFilter keeps a candidate if its Marker is absent or its
    count is below the effective max-fails. *)
Definition spec_healthCheck_keeps (f : healthCheckFilter) (v : T) : bool :=
  match markerOf v with
  | None => true
  | Some m => Count m <? healthCheckFilter_maxFails f
  end.

(** A candidate over its fail threshold: it has a Marker whose count is at
    least the effective max-fails. *)
Definition over_threshold (f : healthCheckFilter) (v : T) : Prop :=
  exists m, markerOf v = Some m /\ healthCheckFilter_maxFails f <= Count m.

End FilterSpec.

(** ** The specification's reading of a round-robin cycle *)

(** [N] consecutive calls on a list of length [N], the counter being
    [counter] before the first: every candidate is returned exactly once, in
    list order, starting at index [counter mod N]. *)
Definition spec_roundRobin_cycle {MD T : Type} `{Candidate MD T}
  (counter : Z) (vs : list T) : Prop :=
  snd (roundRobin_run (length vs) counter vs)
  = Some <$> rotate (Z.to_nat (counter mod len vs)) vs.

(** ** The specification's reading of the health checker *)

(** The candidates a probe pass does not skip: a non-nil [*chain.Node] with
    a non-empty address and a non-nil Marker, here [m]. *)
Definition spec_probed (v : any) (m : nat) : Prop :=
  exists node,
    v = PNode (Some node)
    /\ Addr node <> EmptyString
    /\ Node_Marker node = Some m.

(** The HTTP probe succeeds: the response status equals the expected
    status if one is set, else it is any 2xx or 3xx status. *)
Definition spec_http_success (expect status : Z) : Prop :=
  if 0 <? expect then status = expect else 200 <= status < 400.

(** ** The selection loop in general *)

Section ArgminDefs.
Context {A : Type} (key : A -> Z).

(** The loop shared by the two "least" strategies, over any key. *)
Definition argmin_body (acc : Z * list A) (item : A) : Z * list A :=
  let '(least, candidates) := acc in
  if key item <? least then (key item, [item])
  else if key item =? least then (least, candidates ++ [item])
  else (least, candidates).

(** The least key met by the loop started at [least]. *)
Definition least_key (vs : list A) (least : Z) : Z :=
  fold_left (fun m x => Z.min m (key x)) vs least.

End ArgminDefs.

(** ** A concrete candidate type

    Metadata is a finite map from keys to integers (a flag is set when its
    value is not 0, a duration is in nanoseconds); a candidate implements
    any subset of the four capabilities. *)

Module Sample.

Definition clamp64 (z : Z) : Z := Z.max MinInt64 (Z.min z MaxInt64).

#[global] Instance consts : SelectorConsts := {
  labelWeight := "weight";
  labelBackup := "backup";
  labelMaxFails := "maxFails";
  labelFailTimeout := "failTimeout";
  DefaultMaxFails := 1;
  DefaultFailTimeout := 10 * 1000000000
}.

Definition get (md : option (gmap string Z)) (key : string) : Z :=
  match md with
  | Some m => default 0 (m !! key)
  | None => 0
  end.

#[global] Instance metadata : MetadataOps (gmap string Z) := {
  IsExists md key := bool_decide (is_Some (md !! key));
  GetInt := get;
  GetDuration := get;
  GetBool md key := negb (get md key =? 0)
}.

Record cand : Type := mkCand {
  name : string;
  meta : option (option (gmap string Z));
  marker : option (option Marker);
  conns : option Z;
  latency : option Z
}.

#[global] Program Instance candidate : Candidate (gmap string Z) cand := {
  zero := mkCand EmptyString None None None None;
  asMetadatable := meta;
  asMarkable := marker;
  asConnectable v := clamp64 <$> conns v;
  asLatencyStater v := clamp64 <$> latency v
}.
Next Obligation.
  intros v c Hc. simpl in Hc. destruct (conns v); simplify_eq/=.
  unfold int64_range, clamp64, MinInt64, MaxInt64. lia.
Qed.
Next Obligation.
  intros v c Hc. simpl in Hc. destruct (latency v); simplify_eq/=.
  unfold int64_range, clamp64, MinInt64, MaxInt64. lia.
Qed.

(** A generator that counts: the draw is the state reduced modulo the
    bound. *)
#[global] Program Instance counting : RandSource Z := {
  Intn r n := (r + 1, r mod n)
}.
Next Obligation. intros r n Hn. simpl. apply Z.mod_pos_bound. lia. Qed.

(** A network with one listening address; its HTTP server answers 404
    everywhere but on [/health]. *)
#[global] Instance network : Network := {
  net_DialTimeout addr _ :=
    if String.eqb addr "up:80" then None else Some (NetError "refused");
  http_Get _ url :=
    if String.eqb url "http://up:80/health" then inr 200
    else if String.prefix "http://up:80" url then inr 404
    else inl (NetError "refused")
}.

(** A plain candidate: only a name and a marker. *)
Definition plain (n : string) (count time : Z) : cand :=
  mkCand n None (Some (Some (mkMarker count time))) None None.

(** A candidate with the backup flag set to [b]. *)
Definition flagged (n : string) (b : Z) : cand :=
  mkCand n (Some (Some {[ "backup"%string := b ]})) None None None.

(** A candidate with [c] active connections. *)
Definition busy (n : string) (c : Z) : cand :=
  mkCand n None None (Some c) None.

(** Three candidates failing or not at various times; the clock reads
    100 s and the timeout is 5 s. *)
Definition second : Z := 1000000000.
Definition lately : cand := plain "lately" 1 (99 * second).
Definition long_ago : cand := plain "long ago" 1 (90 * second).
Definition healthy : cand := plain "healthy" 0 (99 * second).
Definition five_seconds : failFilter := FailFilter 1 (5 * second).

Definition primary : cand := flagged "primary" 0.
Definition spare : cand := flagged "spare" 1.

Definition abc : list cand := [busy "a" 2; busy "b" 0; busy "c" 1].

(** A checker probing over HTTP that expects status 404, and one that
    dials; a node nobody listens on, with marker number 1. *)
Definition expects_404 : HealthChecker :=
  mkHealthChecker (mkConfig (30 * second) (5 * second) CheckTypeHTTP "/x" 404)
    true.
Definition dials : HealthChecker :=
  mkHealthChecker (mkConfig (30 * second) (5 * second) CheckTypeTCP
                     EmptyString 200) true.
Definition down : Node := mkNode "down:80" (Some 1%nat).
Definition world : World := mkWorld {[ 1%nat := mkMarker 3 4 ]} [] [].

End Sample.

(** ** Construction of the health checker *)

(** [time.Second], in nanoseconds. *)
Definition Second : Z := 1000000000.

(** A [HealthCheckerOption] is a function applied to the checker under
    construction. *)
Definition HealthCheckerOption : Type := HealthChecker -> HealthChecker.

Definition HealthCheckIntervalOption (d : Z) : HealthCheckerOption :=
  fun hc =>
    let c := config hc in
    mkHealthChecker
      (mkConfig d (Timeout c) (Type_ c) (Path c) (ExpectStatus c)) (logger hc).

Definition HealthCheckTimeoutOption (d : Z) : HealthCheckerOption :=
  fun hc =>
    let c := config hc in
    mkHealthChecker
      (mkConfig (Interval c) d (Type_ c) (Path c) (ExpectStatus c)) (logger hc).

Definition HealthCheckTypeOption (t : string) : HealthCheckerOption :=
  fun hc =>
    let c := config hc in
    mkHealthChecker
      (mkConfig (Interval c) (Timeout c) t (Path c) (ExpectStatus c))
      (logger hc).

Definition HealthCheckPathOption (path : string) : HealthCheckerOption :=
  fun hc =>
    let c := config hc in
    mkHealthChecker
      (mkConfig (Interval c) (Timeout c) (Type_ c) path (ExpectStatus c))
      (logger hc).

Definition HealthCheckExpectStatusOption (status : Z) : HealthCheckerOption :=
  fun hc =>
    let c := config hc in
    mkHealthChecker
      (mkConfig (Interval c) (Timeout c) (Type_ c) (Path c) status) (logger hc).

Definition HealthCheckLoggerOption (l : bool) : HealthCheckerOption :=
  fun hc => mkHealthChecker (config hc) l.

Definition NewHealthChecker (opts : list HealthCheckerOption)
  : HealthChecker :=
  let hc0 :=
    mkHealthChecker
      (mkConfig (30 * Second) (5 * Second) CheckTypeTCP EmptyString 200)
      false in
  let hc1 := fold_left (fun hc opt => opt hc) opts hc0 in
  let hc2 :=
    if Interval (config hc1) <=? 0
    then HealthCheckIntervalOption (30 * Second) hc1 else hc1 in
  if Timeout (config hc2) <=? 0
  then HealthCheckTimeoutOption (5 * Second) hc2 else hc2.

(** The error of the probe [check] dispatches to: [checkHTTP] for the HTTP
    type, [checkTCP] for every other type. *)
Definition probe_error `{Network} (hc : HealthChecker) (addr : string)
  : option error :=
  if String.eqb (Type_ (config hc)) CheckTypeHTTP
  then checkHTTP hc addr
  else checkTCP hc addr.

(** ** Selectors from configuration *)

(** Modelled from the spec: the fields of [config.SelectorConfig] read by
    the parsers; the type is declared outside the sources at hand. *)
Record SelectorConfig : Type := mkSelectorConfig {
  cfg_Strategy : string;
  cfg_MaxFails : Z;
  cfg_FailTimeout : Z;
  cfg_HealthCheck : bool;
  cfg_HealthCheckType : string;
  cfg_HealthInterval : Z;
  cfg_HealthTimeout : Z;
  cfg_HealthPath : string;
  cfg_HealthExpectStatus : Z
}.

(** The strategy constructors, by name. *)
Inductive StrategyKind : Type :=
| RoundRobinStrategy
| RandomStrategy
| FIFOStrategy
| HashStrategy
| LeastConnStrategy
| LeastLatencyStrategy.

(** A filter as built by one of the three constructors. *)
Inductive FilterKind : Type :=
| AFailFilter (f : failFilter)
| AHealthCheckFilter (f : healthCheckFilter)
| ABackupFilter.

(** Modelled from the spec: [NewSelector], declared outside the sources at
    hand, holds one strategy and an ordered list of filters. *)
Record Selector : Type := NewSelector {
  sel_strategy : StrategyKind;
  sel_filters : list FilterKind
}.

Definition string_in (s : string) (names : list string) : bool :=
  existsb (String.eqb s) names.

Definition ParseChainSelector (cfg : option SelectorConfig)
  : option Selector :=
  match cfg with
  | None => None
  | Some cfg =>
      let strategy :=
        if string_in (cfg_Strategy cfg) ["round"; "rr"]%string
        then RoundRobinStrategy
        else if string_in (cfg_Strategy cfg) ["random"; "rand"]%string
        then RandomStrategy
        else if string_in (cfg_Strategy cfg) ["fifo"; "ha"]%string
        then FIFOStrategy
        else if string_in (cfg_Strategy cfg) ["hash"]%string
        then HashStrategy
        else if string_in (cfg_Strategy cfg) ["leastconn"; "lc"]%string
        then LeastConnStrategy
        else if string_in (cfg_Strategy cfg) ["leastlatency"; "ll"]%string
        then LeastLatencyStrategy
        else RoundRobinStrategy in
      let failFilter' :=
        AFailFilter (FailFilter (cfg_MaxFails cfg) (cfg_FailTimeout cfg)) in
      Some (NewSelector strategy [failFilter'; ABackupFilter])
  end.

Definition ParseNodeSelector (cfg : option SelectorConfig)
  : option Selector :=
  match cfg with
  | None => None
  | Some cfg =>
      let strategy :=
        if string_in (cfg_Strategy cfg) ["round"; "rr"]%string
        then RoundRobinStrategy
        else if string_in (cfg_Strategy cfg) ["random"; "rand"]%string
        then RandomStrategy
        else if string_in (cfg_Strategy cfg) ["fifo"; "ha"]%string
        then FIFOStrategy
        else if string_in (cfg_Strategy cfg) ["hash"]%string
        then HashStrategy
        else if string_in (cfg_Strategy cfg) ["leastconn"; "lc"]%string
        then LeastConnStrategy
        else if string_in (cfg_Strategy cfg) ["leastlatency"; "ll"]%string
        then LeastLatencyStrategy
        else RoundRobinStrategy in
      let failFilter' :=
        if cfg_HealthCheck cfg
        then AHealthCheckFilter (HealthCheckFilter (cfg_MaxFails cfg))
        else AFailFilter (FailFilter (cfg_MaxFails cfg) (cfg_FailTimeout cfg))
      in
      Some (NewSelector strategy [failFilter'; ABackupFilter])
  end.

Definition DefaultNodeSelector `{SelectorConsts} : Selector :=
  NewSelector RoundRobinStrategy
    [AFailFilter (FailFilter DefaultMaxFails DefaultFailTimeout);
     ABackupFilter].

Definition DefaultChainSelector `{SelectorConsts} : Selector :=
  NewSelector RoundRobinStrategy
    [AFailFilter (FailFilter DefaultMaxFails DefaultFailTimeout);
     ABackupFilter].

Definition ParseHealthChecker (cfg : option SelectorConfig) (log : bool)
  : option HealthChecker :=
  match cfg with
  | None => None
  | Some cfg =>
      if negb (cfg_HealthCheck cfg) then None
      else
        let checkType :=
          if String.eqb (cfg_HealthCheckType cfg) "http" then CheckTypeHTTP
          else CheckTypeTCP in
        Some (NewHealthChecker
                [HealthCheckTypeOption checkType;
                 HealthCheckIntervalOption (cfg_HealthInterval cfg);
                 HealthCheckTimeoutOption (cfg_HealthTimeout cfg);
                 HealthCheckPathOption (cfg_HealthPath cfg);
                 HealthCheckExpectStatusOption (cfg_HealthExpectStatus cfg);
                 HealthCheckLoggerOption log])
  end.

(** ** More sample values *)

Module Sample2.

(** Two candidates that failed within the last five seconds. *)
Definition dead : list Sample.cand :=
  [Sample.lately; Sample.plain "just now" 3 (98 * Sample.second)].

(** Candidates with latencies: none measured, 30 ms, 20 ms, not positive. *)
Definition timed (n : string) (d : Z) : Sample.cand :=
  Sample.mkCand n None None None (Some d).

Definition unmeasured : Sample.cand :=
  Sample.mkCand "unmeasured" None None None None.

Definition latencies : list Sample.cand :=
  [unmeasured; timed "slow" 30000000; timed "fast" 20000000; timed "off" 0].



Definition health_on : SelectorConfig :=
  mkSelectorConfig "lc" 3 (10 * Second) true "http" 0 (2 * Second)
    "/health" 0.

End Sample2.

(** ** Facts about lists and the Go primitives *)

Lemma if_same {A : Type} (b : bool) (x : A) : (if b then x else x) = x.
Proof. destruct b; reflexivity. Qed.

(** A loop that appends the elements passing a test builds the filtered
    list behind what it started from. *)
Lemma fold_left_keep {A : Type} (keep : A -> bool)
  (body : list A -> A -> list A)
  (Hbody : forall l v, body l v = if keep v then l ++ [v] else l)
  (vs acc : list A) :
  fold_left body vs acc = acc ++ List.filter keep vs.
Proof.
  revert acc. induction vs as [|v vs IH]; intros acc; simpl.
  - now rewrite app_nil_r.
  - rewrite IH, Hbody. destruct (keep v); [|reflexivity].
    now rewrite <- app_assoc.
Qed.

Lemma filter_twice {A : Type} (keep : A -> bool) (l : list A) :
  List.filter keep (List.filter keep l) = List.filter keep l.
Proof.
  induction l as [|x l IH]; simpl; [reflexivity|].
  destruct (keep x) eqn:E; simpl; rewrite ?E, IH; reflexivity.
Qed.

Lemma filter_all {A : Type} (keep : A -> bool) (l : list A) :
  (forall x, In x l -> keep x = true) -> List.filter keep l = l.
Proof.
  induction l as [|x l IH]; simpl; intros Hall; [reflexivity|].
  rewrite (Hall x) by now left. f_equal. apply IH. intros y Hy.
  apply Hall. now right.
Qed.

Lemma filter_none {A : Type} (keep : A -> bool) (l : list A) :
  (forall x, In x l -> keep x = false) -> List.filter keep l = [].
Proof.
  induction l as [|x l IH]; simpl; intros Hall; [reflexivity|].
  rewrite (Hall x) by now left. apply IH. intros y Hy.
  apply Hall. now right.
Qed.

(** Saturation does not change a comparison with a positive duration. *)
Lemma time_Since_ge (now t d : Z) :
  MinInt64 < d <= MaxInt64 -> (d <= time_Since now t <-> d <= now - t).
Proof.
  unfold time_Since, time_Sub, MinInt64, MaxInt64. intros Hd.
  destruct (Z.ltb_spec (now - t) (- 2 ^ 63)); [lia|].
  destruct (Z.ltb_spec (2 ^ 63 - 1) (now - t)); lia.
Qed.

Section FilterFacts.
Context {MD T : Type} `{SelectorConsts} `{MetadataOps MD} `{Candidate MD T}.

Lemma failFilter_limits_spec (f : failFilter) (v : T) :
  failFilter_limits f v = (effectiveMaxFails f v, effectiveFailTimeout f v).
Proof.
  unfold failFilter_limits, effectiveMaxFails, effectiveFailTimeout,
    effective, explicitly_set.
  destruct (asMetadatable v) as [[md|]|]; try reflexivity.
  destruct (IsExists md labelMaxFails), (IsExists md labelFailTimeout);
    reflexivity.
Qed.

Lemma failFilter_body_spec (f : failFilter) (now : Z) (l : list T) (v : T) :
  failFilter_body f now l v
  = if spec_failFilter_keeps f now v then l ++ [v] else l.
Proof.
  unfold failFilter_body, spec_failFilter_keeps, markerOf.
  rewrite failFilter_limits_spec.
  destruct (asMarkable v) as [[m|]|]; reflexivity.
Qed.

(** For a candidate with a Marker and an effective timeout in the range of
    [time.Duration], the test on [time.Since] is the test on the difference
    of the two instants. *)
Lemma spec_failFilter_keeps_elapsed (f : failFilter) (now : Z) (v : T)
  (m : Marker) :
  markerOf v = Some m ->
  MinInt64 < effectiveFailTimeout f v <= MaxInt64 ->
  (spec_failFilter_keeps f now v = true <->
   Count m < effectiveMaxFails f v
   \/ effectiveFailTimeout f v <= now - Time m).
Proof.
  intros Hm Hd. unfold spec_failFilter_keeps. rewrite Hm, orb_true_iff.
  rewrite Z.ltb_lt, Z.leb_le, (time_Since_ge _ _ _ Hd). reflexivity.
Qed.

Lemma failFilter_Filter_spec (f : failFilter) (now : Z) (vs : list T) :
  failFilter_Filter f now vs
  = if len vs <=? 1 then vs else List.filter (spec_failFilter_keeps f now) vs.
Proof.
  unfold failFilter_Filter. destruct (len vs <=? 1); [reflexivity|].
  now rewrite (fold_left_keep _ _ (failFilter_body_spec f now)).
Qed.

Lemma healthCheckFilter_body_spec (f : healthCheckFilter) (l : list T)
  (v : T) :
  healthCheckFilter_body (healthCheckFilter_maxFails f) l v
  = if spec_healthCheck_keeps f v then l ++ [v] else l.
Proof.
  unfold healthCheckFilter_body, spec_healthCheck_keeps, markerOf.
  destruct (asMarkable v) as [[m|]|]; reflexivity.
Qed.

Lemma healthCheckFilter_Filter_spec (f : healthCheckFilter) (vs : list T) :
  healthCheckFilter_Filter f vs
  = if len vs <=? 1 then vs
    else match List.filter (spec_healthCheck_keeps f) vs with
         | [] => vs
         | l => l
         end.
Proof.
  unfold healthCheckFilter_Filter. destruct (len vs <=? 1); [reflexivity|].
  cbv zeta. rewrite (fold_left_keep _ _ (healthCheckFilter_body_spec f)).
  simpl. destruct (List.filter _ vs); reflexivity.
Qed.

Lemma backupFilter_loop (vs l backups : list T) :
  fold_left backupFilter_body vs (l, backups)
  = (l ++ List.filter (fun v => negb (isBackup v)) vs,
     backups ++ List.filter isBackup vs).
Proof.
  revert l backups. induction vs as [|v vs IH]; intros l backups; simpl.
  - now rewrite !app_nil_r.
  - destruct (isBackup v); rewrite IH; simpl; now rewrite <- app_assoc.
Qed.

Lemma backupFilter_Filter_spec (vs : list T) :
  backupFilter_Filter vs
  = if len vs <=? 1 then vs
    else match List.filter (fun v => negb (isBackup v)) vs with
         | [] => List.filter isBackup vs
         | l => l
         end.
Proof.
  unfold backupFilter_Filter. destruct (len vs <=? 1); [reflexivity|].
  rewrite backupFilter_loop. simpl.
  destruct (List.filter _ vs); reflexivity.
Qed.

End FilterFacts.

Section FilterClaims.
Context {MD T : Type} `{SelectorConsts} `{MetadataOps MD} `{Candidate MD T}.

(** C1. Whenever FailFilter actually filters (the input has at least two
    candidates), its output is the input restricted, in order, to the
    candidates the specification keeps: a candidate is in the output if and
    only if it is in the input and its Marker is absent, or its count is
    below the effective max-fails, or the time elapsed since its last
    failure is at least the effective fail-timeout.  The effective values
    are the configured ones unless the candidate's metadata explicitly sets
    the key, and a non-positive value is replaced by 1, respectively by the
    default timeout. *)
Theorem failFilter_keeps_iff (f : failFilter) (now : Z) (vs : list T) :
  2 <= len vs ->
  failFilter_Filter f now vs = List.filter (spec_failFilter_keeps f now) vs
  /\ forall v,
       In v (failFilter_Filter f now vs) <->
       In v vs
       /\ (markerOf v = None
           \/ exists m, markerOf v = Some m
                /\ (Count m < effectiveMaxFails f v
                    \/ effectiveFailTimeout f v <= time_Since now (Time m))).
Proof.
  intros Hlen.
  assert (E : failFilter_Filter f now vs
              = List.filter (spec_failFilter_keeps f now) vs).
  { rewrite failFilter_Filter_spec.
    destruct (Z.leb_spec (len vs) 1); [lia | reflexivity]. }
  split; [exact E|]. intros v. rewrite E, filter_In.
  unfold spec_failFilter_keeps.
  split; intros [Hin Hk]; (split; [exact Hin|]).
  - destruct (markerOf v) as [m|]; [right | now left].
    exists m. split; [reflexivity|].
    apply orb_true_iff in Hk as [Hk|Hk]; [left | right]; lia.
  - destruct Hk as [-> | (m & -> & Hm)]; [reflexivity|].
    apply orb_true_iff. destruct Hm; [left | right]; lia.
Qed.

(** C2. HealthCheckFilter fails open: a non-empty input never yields an
    empty output, and when every candidate of an input of length at least
    two is over its fail threshold the output is the input itself. *)
Theorem healthCheckFilter_fail_open (f : healthCheckFilter) (vs : list T) :
  vs <> [] ->
  healthCheckFilter_Filter f vs <> []
  /\ (2 <= len vs ->
      (forall v, In v vs -> over_threshold f v) ->
      healthCheckFilter_Filter f vs = vs).
Proof.
  intros Hne. rewrite healthCheckFilter_Filter_spec. split.
  - destruct (len vs <=? 1); [exact Hne|].
    destruct (List.filter _ vs); [exact Hne | discriminate].
  - intros Hlen Hall.
    destruct (Z.leb_spec (len vs) 1); [reflexivity|].
    rewrite filter_none; [reflexivity|].
    intros v Hv. destruct (Hall v Hv) as (m & Hm & Hc).
    unfold spec_healthCheck_keeps. rewrite Hm. lia.
Qed.

(** C3. BackupFilter on a list holding at least one non-backup and at least
    one backup candidate returns exactly the non-backup candidates, in
    order; on a list of backup candidates only it returns the list. *)
Theorem backupFilter_partition (vs : list T) :
  ((exists p, In p vs /\ isBackup p = false) ->
   (exists b, In b vs /\ isBackup b = true) ->
   backupFilter_Filter vs = List.filter (fun v => negb (isBackup v)) vs)
  /\ ((forall v, In v vs -> isBackup v = true) ->
      backupFilter_Filter vs = vs).
Proof.
  rewrite backupFilter_Filter_spec. split.
  - intros (p & Hp & Ep) (b & Hb & Eb).
    assert (Hlen : 2 <= len vs).
    { destruct vs as [|x [|y vs']]; [destruct Hp | | unfold len; simpl; lia].
      destruct Hp as [->|[]], Hb as [->|[]]. congruence. }
    destruct (Z.leb_spec (len vs) 1); [lia|].
    destruct (List.filter _ vs) eqn:E; [|reflexivity].
    assert (Hin : In p (List.filter (fun v => negb (isBackup v)) vs)).
    { apply filter_In. split; [exact Hp | now rewrite Ep]. }
    rewrite E in Hin. destruct Hin.
  - intros Hall. destruct (len vs <=? 1); [reflexivity|].
    rewrite filter_none.
    + now apply filter_all.
    + intros v Hv. now rewrite (Hall v Hv).
Qed.

(** C7. Each of the three filters is idempotent: with the candidates' state
    and the clock unchanged, filtering a filter's own output returns that
    output. *)
Theorem filters_idempotent (ff : failFilter) (hf : healthCheckFilter)
  (now : Z) (vs : list T) :
  failFilter_Filter ff now (failFilter_Filter ff now vs)
  = failFilter_Filter ff now vs
  /\ healthCheckFilter_Filter hf (healthCheckFilter_Filter hf vs)
     = healthCheckFilter_Filter hf vs
  /\ backupFilter_Filter (backupFilter_Filter vs) = backupFilter_Filter vs.
Proof.
  split; [|split].
  - rewrite (failFilter_Filter_spec ff now vs).
    destruct (len vs <=? 1) eqn:E.
    + now rewrite failFilter_Filter_spec, E.
    + rewrite failFilter_Filter_spec, filter_twice.
      apply if_same.
  - rewrite (healthCheckFilter_Filter_spec hf vs).
    destruct (len vs <=? 1) eqn:E.
    + now rewrite healthCheckFilter_Filter_spec, E.
    + destruct (List.filter _ vs) as [|x l] eqn:F.
      * now rewrite healthCheckFilter_Filter_spec, E, F.
      * rewrite healthCheckFilter_Filter_spec, <- F, filter_twice, F.
        apply if_same.
  - rewrite (backupFilter_Filter_spec vs).
    destruct (len vs <=? 1) eqn:E.
    + now rewrite backupFilter_Filter_spec, E.
    + destruct (List.filter (fun v => negb (isBackup v)) vs) as [|x l] eqn:F.
      * rewrite backupFilter_Filter_spec, filter_twice.
        rewrite (filter_none (fun v => negb (isBackup v))
                   (List.filter isBackup vs)).
        { apply if_same. }
        intros v Hv. apply filter_In in Hv as [_ ->]. reflexivity.
      * rewrite backupFilter_Filter_spec, <- F, filter_twice, F.
        apply if_same.
Qed.

End FilterClaims.

(** The filters on the sample candidates. *)

Lemma failFilter_keeps_iff_witness :
  2 <= len [Sample.lately; Sample.long_ago; Sample.healthy]
  /\ failFilter_Filter Sample.five_seconds (100 * Sample.second)
       [Sample.lately; Sample.long_ago; Sample.healthy]
     = [Sample.long_ago; Sample.healthy].
Proof.
  assert (Hlen : 2 <= len [Sample.lately; Sample.long_ago; Sample.healthy])
    by (unfold len; simpl; lia).
  split; [exact Hlen|].
  etransitivity;
    [exact (proj1 (failFilter_keeps_iff Sample.five_seconds
                     (100 * Sample.second) _ Hlen))
    | vm_compute; reflexivity].
Defined.

Lemma healthCheckFilter_fail_open_witness :
  let f := HealthCheckFilter 0 in
  let vs := [Sample.lately; Sample.long_ago] in
  vs <> []
  /\ 2 <= len vs
  /\ (forall v, In v vs -> over_threshold f v)
  /\ healthCheckFilter_Filter f vs <> []
  /\ healthCheckFilter_Filter f vs = vs.
Proof.
  intros f vs.
  assert (Hne : vs <> []) by discriminate.
  assert (Hlen : 2 <= len vs) by (unfold len; simpl; lia).
  assert (Hall : forall v, In v vs -> over_threshold f v).
  { intros v [<-|[<-|[]]]; eexists; (split; [reflexivity|]);
      unfold healthCheckFilter_maxFails; simpl; lia. }
  destruct (healthCheckFilter_fail_open f vs Hne) as [Hout Hopen].
  exact (conj Hne (conj Hlen (conj Hall (conj Hout (Hopen Hlen Hall))))).
Defined.

Lemma backupFilter_partition_witness :
  let mixed := [Sample.spare; Sample.primary; Sample.healthy] in
  let spares := [Sample.spare; Sample.spare] in
  (exists p, In p mixed /\ isBackup p = false)
  /\ (exists b, In b mixed /\ isBackup b = true)
  /\ backupFilter_Filter mixed = [Sample.primary; Sample.healthy]
  /\ (forall v, In v spares -> isBackup v = true)
  /\ backupFilter_Filter spares = spares.
Proof.
  intros mixed spares.
  assert (Hp : exists p, In p mixed /\ isBackup p = false).
  { exists Sample.primary. split; [right; now left | reflexivity]. }
  assert (Hb : exists b, In b mixed /\ isBackup b = true).
  { exists Sample.spare. split; [now left | reflexivity]. }
  assert (Hs : forall v, In v spares -> isBackup v = true).
  { intros v [<-|[<-|[]]]; reflexivity. }
  split; [exact Hp|]. split; [exact Hb|]. split; [|split; [exact Hs|]].
  - etransitivity;
      [exact (proj1 (backupFilter_partition mixed) Hp Hb)
      | vm_compute; reflexivity].
  - exact (proj2 (backupFilter_partition spares) Hs).
Defined.

(** ** Facts about indexing and the selection loops *)

Lemma index_in_range {A : Type} (s : list A) (i : Z) :
  0 <= i < len s -> exists v, index s i = Some v /\ In v s.
Proof.
  intros [Hlo Hhi]. unfold index, len in *.
  destruct (Z.ltb_spec i 0); [lia|].
  destruct (lookup_lt_is_Some_2 s (Z.to_nat i)) as [v Hv]; [lia|].
  exists v. split; [exact Hv|].
  apply list_elem_of_In, list_elem_of_lookup. eauto.
Qed.

Lemma index_mod {A : Type} (s : list A) (n : Z) :
  s <> [] -> exists v, index s (n mod len s) = Some v /\ In v s.
Proof.
  intros Hne. apply index_in_range, Z.mod_pos_bound.
  destruct s; [congruence | unfold len; simpl; lia].
Qed.

Lemma len_pos {A : Type} (s : list A) : s <> [] -> 0 < len s.
Proof. destruct s; [congruence | unfold len; simpl; lia]. Qed.

Lemma len_eqb_0 {A : Type} (s : list A) : s <> [] -> (len s =? 0) = false.
Proof. intros Hs. apply Z.eqb_neq. pose proof (len_pos s Hs). lia. Qed.

Section Argmin.
Context {A : Type} (key : A -> Z).

Lemma least_key_le_start (vs : list A) (least : Z) :
  least_key key vs least <= least.
Proof.
  unfold least_key. revert least.
  induction vs as [|x vs IH]; intros least; simpl; [lia|].
  specialize (IH (Z.min least (key x))). lia.
Qed.

Lemma least_key_le (vs : list A) (least : Z) (x : A) :
  In x vs -> least_key key vs least <= key x.
Proof.
  revert least. induction vs as [|y vs IH]; intros least [].
  - subst y. pose proof (least_key_le_start vs (Z.min least (key x))).
    change (least_key key (x :: vs) least)
      with (least_key key vs (Z.min least (key x))). lia.
  - now apply IH.
Qed.

Lemma least_key_attained (vs : list A) (least : Z) :
  least_key key vs least = least
  \/ exists x, In x vs /\ key x = least_key key vs least.
Proof.
  revert least. induction vs as [|y vs IH]; intros least.
  - now left.
  - change (least_key key (y :: vs) least)
      with (least_key key vs (Z.min least (key y))).
    destruct (IH (Z.min least (key y))) as [E | (x & Hx & E)].
    + destruct (Z.min_spec least (key y)) as [[_ E']|[_ E']].
      * left. congruence.
      * right. exists y. split; [now left | congruence].
    + right. exists x. split; [now right | exact E].
Qed.

Lemma argmin_loop (vs : list A) (least : Z) (candidates : list A) :
  (forall x, In x candidates -> key x = least) ->
  fold_left (argmin_body key) vs (least, candidates)
  = (least_key key vs least,
     List.filter (fun x => key x =? least_key key vs least) (candidates ++ vs)).
Proof.
  revert least candidates.
  induction vs as [|v vs IH]; intros least candidates Hc.
  - simpl. rewrite app_nil_r, filter_all; [reflexivity|].
    intros x Hx. rewrite (Hc x Hx). apply Z.eqb_refl.
  - cbn [fold_left argmin_body].
    pose proof (least_key_le_start vs (Z.min least (key v))) as Hle.
    change (least_key key (v :: vs) least)
      with (least_key key vs (Z.min least (key v))).
    rewrite List.filter_app. cbn [List.filter].
    destruct (Z.ltb_spec (key v) least) as [Hlt|Hge].
    + rewrite Z.min_r in * by lia.
      rewrite IH by (intros x [<-|[]]; reflexivity). f_equal.
      rewrite (filter_none _ candidates); [reflexivity|].
      intros x Hx. rewrite (Hc x Hx). apply Z.eqb_neq. lia.
    + rewrite Z.min_l in * by lia.
      destruct (Z.eqb_spec (key v) least) as [E|N].
      * rewrite IH.
        { f_equal. rewrite <- app_assoc, List.filter_app. reflexivity. }
        intros x Hx. apply in_app_or in Hx as [Hx|[<-|[]]]; auto.
      * rewrite IH by exact Hc. f_equal.
        rewrite List.filter_app. f_equal.
        destruct (Z.eqb_spec (key v) (least_key key vs least)); [lia|].
        reflexivity.
Qed.

(** Started above every key, the loop ends with the candidates of least
    key, and there is one. *)
Lemma argmin_result (vs : list A) (top : Z) :
  vs <> [] -> (forall x, In x vs -> key x <= top) ->
  exists least candidates,
    fold_left (argmin_body key) vs (top, []) = (least, candidates)
    /\ candidates = List.filter (fun x => key x =? least) vs
    /\ candidates <> []
    /\ (forall x, In x vs -> least <= key x).
Proof.
  intros Hne Htop.
  exists (least_key key vs top),
    (List.filter (fun x => key x =? least_key key vs top) vs).
  split; [apply (argmin_loop vs top []); intros x []|].
  split; [reflexivity|]. split.
  - assert (exists x, In x vs /\ key x = least_key key vs top) as (x & Hx & E).
    { destruct (least_key_attained vs top) as [E|Hx]; [|exact Hx].
      destruct vs as [|x vs']; [congruence|]. exists x.
      split; [now left|].
      pose proof (least_key_le (x :: vs') top x (or_introl eq_refl)).
      pose proof (Htop x (or_introl eq_refl)). lia. }
    intros Hnil.
    assert (Hin : In x (List.filter (fun y => key y =? least_key key vs top)
                          vs)).
    { apply filter_In. split; [exact Hx | now apply Z.eqb_eq]. }
    rewrite Hnil in Hin. destruct Hin.
  - intros x Hx. now apply least_key_le.
Qed.

End Argmin.

Section StrategyFacts.
Context {MD T R : Type} `{SelectorConsts} `{MetadataOps MD} `{Candidate MD T}
  `{RandSource R}.

Lemma connsOf_le_max (v : T) : connsOf v <= MaxInt64.
Proof.
  unfold connsOf. destruct (asConnectable v) as [c|] eqn:E.
  - apply (ActiveConns_int64 v c E).
  - unfold MaxInt64. lia.
Qed.

Lemma latencyOf_le_max (v : T) : latencyOf v <= MaxInt64.
Proof.
  unfold latencyOf. destruct (asLatencyStater v) as [d|] eqn:E; [|lia].
  destruct (d <=? 0); [lia|]. apply (Latency_int64 v d E).
Qed.

Lemma pick_single (r : R) (c : T) : pick r [c] = (r, Some c).
Proof. reflexivity. Qed.

Lemma pick_member (r : R) (candidates : list T) :
  candidates <> [] ->
  exists v, snd (pick r candidates) = Some v /\ In v candidates.
Proof.
  intros Hne. pose proof (len_pos candidates Hne) as Hpos. unfold pick.
  destruct (len candidates =? 1).
  - apply index_in_range. lia.
  - unfold rand_Intn. destruct (Z.leb_spec (len candidates) 0); [lia|].
    pose proof (Intn_range r (len candidates) Hpos) as Hi.
    destruct (Intn r (len candidates)) as [r' i]. simpl in *.
    now apply index_in_range.
Qed.

Lemma leastConn_Apply_spec (r : R) (vs : list T) :
  vs <> [] ->
  exists least,
    leastConnStrategy_Apply r vs
    = pick r (List.filter (fun x => connsOf x =? least) vs)
    /\ List.filter (fun x => connsOf x =? least) vs <> []
    /\ forall x, In x vs -> least <= connsOf x.
Proof.
  intros Hne. unfold leastConnStrategy_Apply. rewrite (len_eqb_0 vs Hne).
  destruct (argmin_result connsOf vs MaxInt64 Hne)
    as (least & candidates & E & -> & Hc & Hmin).
  { intros x _. apply connsOf_le_max. }
  exists least. change leastConn_body with (argmin_body connsOf).
  rewrite E. auto.
Qed.

Lemma leastLatency_Apply_spec (r : R) (vs : list T) :
  vs <> [] ->
  exists least,
    leastLatencyStrategy_Apply r vs
    = pick r (List.filter (fun x => latencyOf x =? least) vs)
    /\ List.filter (fun x => latencyOf x =? least) vs <> []
    /\ forall x, In x vs -> least <= latencyOf x.
Proof.
  intros Hne. unfold leastLatencyStrategy_Apply. rewrite (len_eqb_0 vs Hne).
  destruct (argmin_result latencyOf vs MaxInt64 Hne)
    as (least & candidates & E & -> & Hc & Hmin).
  { intros x _. apply latencyOf_le_max. }
  exists least. change leastLatency_body with (argmin_body latencyOf).
  rewrite E. auto.
Qed.

(** The counter read by a call is the counter before it. *)
Lemma roundRobin_Apply_spec (counter : Z) (vs : list T) :
  vs <> [] ->
  roundRobinStrategy_Apply counter vs
  = (uint64 (counter + 1), index vs (uint64 counter mod len vs)).
Proof.
  intros Hne. unfold roundRobinStrategy_Apply. rewrite (len_eqb_0 vs Hne).
  unfold uint64. rewrite Zminus_mod_idemp_l.
  now replace (counter + 1 - 1) with counter by lia.
Qed.

Lemma roundRobin_run_spec (n : nat) (counter : Z) (vs : list T) :
  vs <> [] ->
  roundRobin_run n counter vs
  = (if n is O then counter else uint64 (counter + Z.of_nat n),
     List.map (fun i => index vs (uint64 (counter + Z.of_nat i) mod len vs))
       (seq 0 n)).
Proof.
  intros Hne. revert counter. induction n as [|n IH]; intros counter.
  - reflexivity.
  - cbn [roundRobin_run]. rewrite roundRobin_Apply_spec, IH by exact Hne.
    cbn [seq List.map]. rewrite <- seq_shift, List.map_map.
    f_equal; [|f_equal].
    + destruct n; [f_equal; lia|]. unfold uint64.
      rewrite Zplus_mod_idemp_l. f_equal. lia.
    + f_equal. f_equal. f_equal. lia.
    + apply map_ext. intros i. unfold uint64.
      rewrite Zplus_mod_idemp_l. do 3 f_equal. lia.
Qed.

End StrategyFacts.

Section StrategyClaims.
Context {MD T R : Type} `{SelectorConsts} `{MetadataOps MD} `{Candidate MD T}
  `{RandSource R}.

(** C8. On an empty candidate list every one of the six strategies returns
    the zero value of the candidate type, and leaves its state as it was. *)
Theorem Apply_empty_zero (counter : Z) (r : R) (rw : RandomWeighted)
  (ctx : Ctx) :
  roundRobinStrategy_Apply counter [] = (counter, Some zero)
  /\ randomStrategy_Apply rw [] = (rw, Some zero)
  /\ fifoStrategy_Apply [] = Some zero
  /\ hashStrategy_Apply r ctx [] = (r, Some zero)
  /\ leastConnStrategy_Apply r [] = (r, Some zero)
  /\ leastLatencyStrategy_Apply r [] = (r, Some zero).
Proof. repeat split. Qed.

(** C9. On a non-empty list, RoundRobin, FIFO, Hash, LeastConn and
    LeastLatency each return (without panicking) an element of the list. *)
Theorem Apply_member (counter : Z) (r : R) (ctx : Ctx) (vs : list T) :
  vs <> [] ->
  (exists v, snd (roundRobinStrategy_Apply counter vs) = Some v /\ In v vs)
  /\ (exists v, fifoStrategy_Apply vs = Some v /\ In v vs)
  /\ (exists v, snd (hashStrategy_Apply r ctx vs) = Some v /\ In v vs)
  /\ (exists v, snd (leastConnStrategy_Apply r vs) = Some v /\ In v vs)
  /\ (exists v, snd (leastLatencyStrategy_Apply r vs) = Some v /\ In v vs).
Proof.
  intros Hne. pose proof (len_pos vs Hne) as Hpos.
  repeat apply conj.
  - rewrite roundRobin_Apply_spec by exact Hne. now apply index_mod.
  - unfold fifoStrategy_Apply. rewrite (len_eqb_0 vs Hne).
    apply index_in_range. lia.
  - unfold hashStrategy_Apply. rewrite (len_eqb_0 vs Hne).
    destruct (HashFromContext ctx) as [h|].
    + now apply index_mod.
    + unfold rand_Intn. destruct (Z.leb_spec (len vs) 0); [lia|].
      pose proof (Intn_range r (len vs) Hpos) as Hi.
      destruct (Intn r (len vs)) as [r' i]. now apply index_in_range.
  - destruct (leastConn_Apply_spec r vs Hne) as (least & -> & Hc & _).
    destruct (pick_member r _ Hc) as (v & Hv & Hin).
    exists v. split; [exact Hv|]. now apply filter_In in Hin.
  - destruct (leastLatency_Apply_spec r vs Hne) as (least & -> & Hc & _).
    destruct (pick_member r _ Hc) as (v & Hv & Hin).
    exists v. split; [exact Hv|]. now apply filter_In in Hin.
Qed.

(** C6. On a non-empty list LeastConn returns a candidate of the list whose
    number of active connections (0 for a candidate that is not
    Connectable) is minimal over the list; when one candidate has 0
    connections and every other candidate has at least 1, it returns that
    candidate. *)
Theorem leastConn_minimal (r : R) (vs : list T) :
  vs <> [] ->
  (exists v,
     snd (leastConnStrategy_Apply r vs) = Some v
     /\ In v vs
     /\ forall x, In x vs -> connsOf v <= connsOf x)
  /\ (forall l1 c l2,
        vs = l1 ++ c :: l2 ->
        connsOf c = 0 ->
        (forall x, In x (l1 ++ l2) -> 1 <= connsOf x) ->
        snd (leastConnStrategy_Apply r vs) = Some c).
Proof.
  intros Hne.
  destruct (leastConn_Apply_spec r vs Hne) as (least & -> & Hc & Hmin).
  split.
  - destruct (pick_member r _ Hc) as (v & Hv & Hin).
    exists v. apply filter_In in Hin as [Hin Hk].
    split; [exact Hv|]. split; [exact Hin|].
    intros x Hx. apply Z.eqb_eq in Hk. rewrite Hk. now apply Hmin.
  - intros l1 c l2 -> Hzero Hothers.
    assert (Hleast : least = 0).
    { destruct (List.filter _ (l1 ++ c :: l2)) as [|w ws] eqn:E;
        [congruence|].
      assert (Hw : In w (List.filter (fun x => connsOf x =? least)
                           (l1 ++ c :: l2))) by (rewrite E; now left).
      apply filter_In in Hw as [Hw Hk]. apply Z.eqb_eq in Hk.
      pose proof (Hmin c (in_elt c l1 l2)) as Hle.
      apply in_app_or in Hw as [Hw|[<-|Hw]]; [|lia|].
      - specialize (Hothers w (in_or_app _ _ _ (or_introl Hw))). lia.
      - specialize (Hothers w (in_or_app _ _ _ (or_intror Hw))). lia. }
    subst least. rewrite List.filter_app. cbn [List.filter].
    rewrite Hzero. cbn [Z.eqb].
    rewrite !filter_none.
    + reflexivity.
    + intros x Hx. apply Z.eqb_neq.
      specialize (Hothers x (in_or_app _ _ _ (or_intror Hx))). lia.
    + intros x Hx. apply Z.eqb_neq.
      specialize (Hothers x (in_or_app _ _ _ (or_introl Hx))). lia.
Qed.

(** C4, as amended.  The counter being a [uint64], [N] consecutive calls on
    a list of length [N > 0] return the list rotated to start at index
    [counter mod N] (every candidate once, in list order, each call one
    index after the previous one) provided the counter does not wrap
    around during these calls, or [N] divides [2^64]; the counter ends
    [N] higher. *)
Theorem roundRobin_cycle (counter : Z) (vs : list T) :
  vs <> [] ->
  0 <= counter < 2 ^ 64 ->
  counter + len vs <= 2 ^ 64 \/ (len vs | 2 ^ 64) ->
  spec_roundRobin_cycle counter vs
  /\ fst (roundRobin_run (length vs) counter vs) = uint64 (counter + len vs).
Proof.
  intros Hne Hc Hwrap. pose proof (len_pos vs Hne) as Hpos.
  unfold spec_roundRobin_cycle.
  rewrite roundRobin_run_spec by exact Hne. cbn [fst snd]. split.
  - apply list_eq. intros i.
    rewrite !list_lookup_fmap.
    destruct (decide (i < length vs)%nat) as [Hi|Hi].
    + rewrite lookup_seq_lt by exact Hi. cbn [fmap option_fmap option_map].
      rewrite lookup_rotate_r by exact Hi. unfold rotate_nat_add.
      rewrite Z2Nat.id by (apply Z.mod_pos_bound; exact Hpos).
      fold (len vs). rewrite Zplus_mod_idemp_l.
      assert (E : uint64 (counter + Z.of_nat (0 + i)) mod len vs
                  = (counter + Z.of_nat i) mod len vs).
      { unfold uint64. replace (Z.of_nat (0 + i)) with (Z.of_nat i) by lia.
        destruct Hwrap as [Hw|Hd].
        - rewrite (Z.mod_small (counter + Z.of_nat i)); [reflexivity|].
          unfold len in Hw. lia.
        - now apply Z.mod_mod_divide. }
      rewrite E. unfold index.
      pose proof (Z.mod_pos_bound (counter + Z.of_nat i) (len vs) Hpos).
      destruct (Z.ltb_spec ((counter + Z.of_nat i) mod len vs) 0); [lia|].
      destruct (lookup_lt_is_Some_2 vs
                  (Z.to_nat ((counter + Z.of_nat i) mod len vs)))
        as [v Hv]; [unfold len in *; lia|].
      now rewrite Hv.
    + rewrite lookup_seq_ge by lia.
      rewrite (lookup_ge_None_2 (rotate _ _)); [reflexivity|].
      rewrite length_rotate. lia.
  - destruct (length vs) eqn:E; [unfold len in Hpos; lia|].
    unfold len. now rewrite E.
Qed.

End StrategyClaims.

(** The strategies on the sample candidates. *)

Lemma Apply_member_witness :
  Sample.abc <> []
  /\ (exists v, snd (roundRobinStrategy_Apply 7 Sample.abc) = Some v
                /\ In v Sample.abc)
  /\ (exists v, snd (leastLatencyStrategy_Apply 7 Sample.abc) = Some v
                /\ In v Sample.abc).
Proof.
  assert (Hne : Sample.abc <> []) by discriminate.
  split; [exact Hne|].
  destruct (Apply_member 7 7 (Some (mkHash "10.0.0.1")) Sample.abc Hne)
    as (Hrr & _ & _ & _ & Hll).
  split; [exact Hrr | exact Hll].
Defined.

Lemma leastConn_minimal_witness :
  Sample.abc <> []
  /\ snd (leastConnStrategy_Apply 7 Sample.abc) = Some (Sample.busy "b" 0).
Proof.
  assert (Hne : Sample.abc <> []) by discriminate.
  split; [exact Hne|].
  apply (proj2 (leastConn_minimal 7 Sample.abc Hne)
           [Sample.busy "a" 2] (Sample.busy "b" 0) [Sample.busy "c" 1]).
  - reflexivity.
  - reflexivity.
  - intros x [<-|[<-|[]]]; vm_compute; discriminate.
Defined.

Lemma roundRobin_cycle_witness :
  Sample.abc <> []
  /\ 0 <= 5 < 2 ^ 64
  /\ (5 + len Sample.abc <= 2 ^ 64 \/ (len Sample.abc | 2 ^ 64))
  /\ spec_roundRobin_cycle 5 Sample.abc.
Proof.
  assert (Hne : Sample.abc <> []) by discriminate.
  assert (Hc : 0 <= 5 < 2 ^ 64) by lia.
  assert (Hw : 5 + len Sample.abc <= 2 ^ 64 \/ (len Sample.abc | 2 ^ 64))
    by (left; unfold len; simpl; lia).
  split; [exact Hne|]. split; [exact Hc|]. split; [exact Hw|].
  exact (proj1 (roundRobin_cycle 5 Sample.abc Hne Hc Hw)).
Defined.

(** Three calls from the last value of the counter return the first
    candidate twice: the counter wraps to 0 and [2^64 - 1] is a multiple
    of 3. *)
Example roundRobin_wrap_run :
  snd (roundRobin_run 3 MaxUint64 Sample.abc)
  = [Some (Sample.busy "a" 2); Some (Sample.busy "a" 2);
     Some (Sample.busy "b" 0)].
Proof. vm_compute. reflexivity. Qed.

(** C4, as stated, fails for the starting value [2^64 - 1] of the counter
    and a list of three candidates. *)
Lemma roundRobin_cycle_counterexample :
  Sample.abc <> []
  /\ 0 <= MaxUint64 < 2 ^ 64
  /\ ~ spec_roundRobin_cycle MaxUint64 Sample.abc.
Proof.
  split; [discriminate|]. split; [unfold MaxUint64; lia|].
  unfold spec_roundRobin_cycle.
  change (length Sample.abc) with 3%nat. rewrite roundRobin_wrap_run.
  vm_compute. discriminate.
Qed.

Section HealthCheckClaims.
Context `{Network}.

Lemma debugf_markers (hc : HealthChecker) (e : LogEntry) (w : World) :
  markers (debugf hc e w) = markers w.
Proof. unfold debugf. destruct (logger hc); reflexivity. Qed.

(** What [checkHTTP] does for every configuration and every answer of the
    network: it succeeds exactly when the request succeeds with a 2xx or 3xx
    status that, if an expected status is configured, is the expected
    one.  In particular a request error is always a failure. *)
Lemma checkHTTP_success_iff (hc : HealthChecker) (addr : string) :
  checkHTTP hc addr = None <->
  exists status,
    http_Get (Timeout (config hc)) (probe_url hc addr) = inr status
    /\ 200 <= status < 400
    /\ (0 < ExpectStatus (config hc) -> status = ExpectStatus (config hc)).
Proof.
  unfold checkHTTP. split.
  - intros Hok.
    destruct (http_Get _ _) as [err|status] eqn:E; [discriminate|].
    exists status. split; [reflexivity|].
    destruct (Z.ltb_spec 0 (ExpectStatus (config hc)));
      destruct (Z.eqb_spec status (ExpectStatus (config hc)));
      destruct (Z.leb_spec 200 status); destruct (Z.ltb_spec status 400);
      simpl in Hok; try discriminate; split; lia.
  - intros (status & -> & Hr & He).
    destruct (Z.ltb_spec 0 (ExpectStatus (config hc)));
      destruct (Z.eqb_spec status (ExpectStatus (config hc)));
      destruct (Z.leb_spec 200 status); destruct (Z.ltb_spec status 400);
      simpl; try reflexivity; lia.
Qed.

(** Without an expected status the probe succeeds exactly on a 2xx or 3xx
    answer, as the specification says. *)
Lemma checkHTTP_no_expected_status (hc : HealthChecker) (addr : string) :
  ExpectStatus (config hc) <= 0 ->
  (checkHTTP hc addr = None <->
   exists status,
     http_Get (Timeout (config hc)) (probe_url hc addr) = inr status
     /\ spec_http_success (ExpectStatus (config hc)) status).
Proof.
  intros Hno. rewrite checkHTTP_success_iff. unfold spec_http_success.
  destruct (Z.ltb_spec 0 (ExpectStatus (config hc))); [lia|].
  split; intros (status & E & Hs); exists status; intuition lia.
Qed.

(** C10. A probe changes something only for a non-nil [*chain.Node] with a
    non-empty address and a non-nil Marker, and then the only Marker it
    changes is that candidate's own; any other value, one that implements
    Markable without being a [*chain.Node] included, leaves the markers, the
    network and the log as they were. *)
Theorem check_frame (hc : HealthChecker) (now : Z) (w : World) (v : any) :
  (check hc now w v <> w -> exists m, spec_probed v m)
  /\ (forall m : nat,
        markers (check hc now w v) !! m <> markers w !! m ->
        spec_probed v m)
  /\ (forall markable, v = Other markable -> check hc now w v = w).
Proof.
  assert (Hkey : (exists m, spec_probed v m
                    /\ forall m', m' <> m ->
                         markers (check hc now w v) !! m' = markers w !! m')
                 \/ check hc now w v = w).
  { unfold check, spec_probed.
    destruct v as [[node|]|markable]; cbn [as_Node any_Marker];
      try (now right).
    destruct (String.eqb_spec (Addr node) EmptyString) as [E|N];
      [now right|].
    destruct (Node_Marker node) as [m|] eqn:M; [|now right].
    left. exists m. split; [eauto|].
    intros m' Hm'.
    destruct (if String.eqb _ _ then _ else _);
      rewrite debugf_markers; cbn [on_marker probe markers];
      now rewrite lookup_alter_ne. }
  split; [|split].
  - intros Hchg. destruct Hkey as [(m & Hm & _)|E]; [eauto | congruence].
  - intros m Hchg. destruct Hkey as [(m0 & Hm & Hrest)|E].
    + destruct (decide (m = m0)) as [->|N]; [exact Hm|].
      now rewrite Hrest in Hchg.
    + now rewrite E in Hchg.
  - intros markable ->. reflexivity.
Qed.

End HealthCheckClaims.

(** The health checker on the sample network. *)

(** C5 fails on the code: with expected status 404 configured, a response
    with status 404 is the expected one, yet the probe reports a failure,
    since a status that passes the comparison with the expected status must
    still pass the 2xx/3xx test. *)
Theorem checkHTTP_expected_status_rejected :
  http_Get (Timeout (config Sample.expects_404))
    (probe_url Sample.expects_404 "up:80") = inr 404
  /\ spec_http_success (ExpectStatus (config Sample.expects_404)) 404
  /\ checkHTTP Sample.expects_404 "up:80"
     = Some (Errorf "health check failed with status: %d" 404).
Proof. repeat split. Qed.

Lemma check_frame_witness :
  check Sample.dials 5 Sample.world (PNode (Some Sample.down)) <> Sample.world
  /\ (exists m, spec_probed (PNode (Some Sample.down)) m)
  /\ check Sample.dials 5 Sample.world (Other (Some (Some 1%nat)))
     = Sample.world.
Proof.
  assert (Hchg : check Sample.dials 5 Sample.world (PNode (Some Sample.down))
                 <> Sample.world).
  { intros E. apply (f_equal probed) in E. vm_compute in E. discriminate E. }
  split; [exact Hchg|]. split.
  - exact (proj1 (check_frame Sample.dials 5 Sample.world _) Hchg).
  - exact (proj2 (proj2 (check_frame Sample.dials 5 Sample.world _))
             _ eq_refl).
Defined.

(** A failed probe marks the node's own marker, and nothing else. *)
Example check_marks_down_node :
  markers (check Sample.dials 5 Sample.world (PNode (Some Sample.down)))
    !! 1%nat = Some (mkMarker 4 5).
Proof. vm_compute. reflexivity. Qed.

(** The checksum of the nine digits is the check value of CRC-32. *)
Example ChecksumIEEE_check :
  ChecksumIEEE (bytes_of_string "123456789") = 0xCBF43926.
Proof. vm_compute. reflexivity. Qed.

(** ** Further properties of the filters *)

Lemma filter_sublist {A : Type} (keep : A -> bool) (l : list A) :
  List.filter keep l `sublist_of` l.
Proof.
  induction l as [|x l IH]; simpl; [constructor|].
  destruct (keep x); now constructor.
Qed.

Lemma filter_nil_inv {A : Type} (keep : A -> bool) (l : list A) :
  List.filter keep l = [] -> forall x, In x l -> keep x = false.
Proof.
  intros E x Hx. destruct (keep x) eqn:K; [|reflexivity].
  assert (Hin : In x (List.filter keep l)) by now apply filter_In.
  rewrite E in Hin. destruct Hin.
Qed.

Lemma filter_filter_and {A : Type} (f g : A -> bool) (l : list A) :
  List.filter g (List.filter f l) = List.filter (fun x => f x && g x) l.
Proof.
  induction l as [|x l IH]; simpl; [reflexivity|].
  destruct (f x); simpl; [destruct (g x)|]; now rewrite IH.
Qed.

Lemma index_0_filter {A : Type} (keep : A -> bool) (l : list A) :
  index (List.filter keep l) 0 = List.find keep l.
Proof.
  unfold index. simpl. induction l as [|x l IH]; simpl; [reflexivity|].
  destruct (keep x); [reflexivity | exact IH].
Qed.

Lemma len_short {A : Type} (l : list A) :
  l <> [] -> len l <= 1 -> exists x, l = [x].
Proof.
  destruct l as [|x [|y l]]; unfold len; simpl; intros Hne Hlen;
    [congruence | eauto | lia].
Qed.

Section MoreFilterFacts.
Context {MD T : Type} `{SelectorConsts} `{MetadataOps MD} `{Candidate MD T}.

(** X1. A filter never reorders, repeats or invents candidates: the output
    of each of the three filters is a sublist of its input. *)
Theorem filters_sublist (ff : failFilter) (hf : healthCheckFilter) (now : Z)
  (vs : list T) :
  failFilter_Filter ff now vs `sublist_of` vs
  /\ healthCheckFilter_Filter hf vs `sublist_of` vs
  /\ backupFilter_Filter vs `sublist_of` vs.
Proof.
  rewrite failFilter_Filter_spec, healthCheckFilter_Filter_spec,
    backupFilter_Filter_spec.
  destruct (len vs <=? 1); [repeat split; reflexivity|].
  split; [apply filter_sublist|]. split.
  - destruct (List.filter _ vs) eqn:E; [reflexivity|].
    rewrite <- E. apply filter_sublist.
  - destruct (List.filter (fun v => negb (isBackup v)) vs) eqn:E.
    + apply filter_sublist.
    + rewrite <- E. apply filter_sublist.
Qed.

(** X2. BackupFilter never empties a list: when no primary candidate is
    left it hands out the backups. *)
Theorem backupFilter_nonempty (vs : list T) :
  vs <> [] -> backupFilter_Filter vs <> [].
Proof.
  intros Hne. rewrite backupFilter_Filter_spec.
  destruct (len vs <=? 1); [exact Hne|].
  destruct (List.filter (fun v => negb (isBackup v)) vs) eqn:E;
    [|discriminate].
  rewrite filter_all; [exact Hne|].
  intros x Hx. pose proof (filter_nil_inv _ _ E x Hx) as Hb.
  simpl in Hb. now destruct (isBackup x).
Qed.

(** X3. FailFilter does not fail open: when each of two or more candidates
    has a Marker whose count has reached its effective max-fails and whose
    last failure is more recent than its effective fail-timeout, the output
    is empty. *)
Theorem failFilter_all_dead (f : failFilter) (now : Z) (vs : list T) :
  2 <= len vs ->
  (forall v, In v vs ->
     exists m, markerOf v = Some m
       /\ effectiveMaxFails f v <= Count m
       /\ time_Since now (Time m) < effectiveFailTimeout f v) ->
  failFilter_Filter f now vs = [].
Proof.
  intros Hlen Hdead. rewrite failFilter_Filter_spec.
  destruct (Z.leb_spec (len vs) 1); [lia|].
  apply filter_none. intros v Hv.
  destruct (Hdead v Hv) as (m & Hm & Hc & Ht).
  unfold spec_failFilter_keeps. rewrite Hm. apply orb_false_iff. lia.
Qed.

(** X4. As long as one of two or more candidates is below the threshold (or
    has no Marker), HealthCheckFilter returns exactly the candidates that
    are, in input order. *)
Theorem healthCheckFilter_exact (f : healthCheckFilter) (vs : list T) :
  2 <= len vs ->
  (exists v, In v vs /\ spec_healthCheck_keeps f v = true) ->
  healthCheckFilter_Filter f vs = List.filter (spec_healthCheck_keeps f) vs.
Proof.
  intros Hlen (v & Hv & Hk). rewrite healthCheckFilter_Filter_spec.
  destruct (Z.leb_spec (len vs) 1); [lia|].
  destruct (List.filter _ vs) eqn:E; [|reflexivity].
  rewrite (filter_nil_inv _ _ E v Hv) in Hk. discriminate.
Qed.

(** X5. FailFilter followed by BackupFilter, the pipeline of the default
    selectors: when the input has two or more candidates and one of them is
    live and not a backup, the pipeline yields exactly the live non-backup
    candidates, in input order; no backup and no dead candidate gets
    through. *)
Theorem fail_then_backup (f : failFilter) (now : Z) (vs : list T) :
  2 <= len vs ->
  (exists p, In p vs /\ spec_failFilter_keeps f now p = true
             /\ isBackup p = false) ->
  backupFilter_Filter (failFilter_Filter f now vs)
  = List.filter
      (fun v => spec_failFilter_keeps f now v && negb (isBackup v)) vs
  /\ backupFilter_Filter (failFilter_Filter f now vs) <> [].
Proof.
  intros Hlen (p & Hp & Hk & Hb).
  rewrite failFilter_Filter_spec.
  destruct (Z.leb_spec (len vs) 1); [lia|].
  rewrite backupFilter_Filter_spec, filter_filter_and.
  set (live := List.filter (spec_failFilter_keeps f now) vs).
  set (out := List.filter _ vs).
  assert (Hlive : In p live) by (apply filter_In; auto).
  assert (Hout : In p out).
  { apply filter_In. split; [exact Hp|]. now rewrite Hk, Hb. }
  assert (Hne : out <> []) by (intros E; rewrite E in Hout; destruct Hout).
  destruct (Z.leb_spec (len live) 1) as [Hshort|_].
  - assert (E : live = [p]).
    { destruct (len_short live) as [x Hx]; [| exact Hshort |].
      - intros E. rewrite E in Hlive. destruct Hlive.
      - rewrite Hx in Hlive. destruct Hlive as [->|[]]. exact Hx. }
    assert (E' : out = [p]).
    { unfold out. rewrite <- filter_filter_and. fold live. rewrite E.
      simpl. now rewrite Hb. }
    rewrite E, E'. split; [reflexivity | discriminate].
  - destruct out eqn:E; [congruence|]. split; [reflexivity | discriminate].
Qed.

(** X6. FIFO behind FailFilter sticks to the first live candidate: on two
    or more candidates the pair returns the first candidate of the input
    that the filter keeps, and the zero value when it keeps none. *)
Theorem fifo_after_failFilter (f : failFilter) (now : Z) (vs : list T) :
  2 <= len vs ->
  fifoStrategy_Apply (failFilter_Filter f now vs)
  = Some (default zero (List.find (spec_failFilter_keeps f now) vs)).
Proof.
  intros Hlen. rewrite failFilter_Filter_spec.
  destruct (Z.leb_spec (len vs) 1); [lia|].
  unfold fifoStrategy_Apply.
  destruct (List.filter _ vs) as [|x l] eqn:E.
  - simpl. rewrite <- index_0_filter, E. reflexivity.
  - rewrite len_eqb_0 by discriminate.
    rewrite <- index_0_filter, E. reflexivity.
Qed.

End MoreFilterFacts.

Lemma backupFilter_nonempty_witness :
  [Sample.spare; Sample.spare] <> []
  /\ backupFilter_Filter [Sample.spare; Sample.spare] <> [].
Proof.
  assert (Hne : [Sample.spare; Sample.spare] <> []) by discriminate.
  exact (conj Hne (backupFilter_nonempty _ Hne)).
Defined.

Lemma failFilter_all_dead_witness :
  let f := Sample.five_seconds in
  let now := 100 * Sample.second in
  2 <= len Sample2.dead
  /\ (forall v, In v Sample2.dead ->
        exists m, markerOf v = Some m
          /\ effectiveMaxFails f v <= Count m
          /\ time_Since now (Time m) < effectiveFailTimeout f v)
  /\ failFilter_Filter f now Sample2.dead = [].
Proof.
  intros f now.
  assert (Hlen : 2 <= len Sample2.dead) by (unfold len; simpl; lia).
  assert (Hdead : forall v, In v Sample2.dead ->
            exists m, markerOf v = Some m
              /\ effectiveMaxFails f v <= Count m
              /\ time_Since now (Time m) < effectiveFailTimeout f v).
  { intros v [<-|[<-|[]]]; eexists; (split; [reflexivity|]);
      split; vm_compute; congruence. }
  exact (conj Hlen (conj Hdead (failFilter_all_dead f now _ Hlen Hdead))).
Defined.

Lemma healthCheckFilter_exact_witness :
  let f := HealthCheckFilter 1 in
  let vs := [Sample.lately; Sample.healthy; Sample.long_ago] in
  2 <= len vs
  /\ (exists v, In v vs /\ spec_healthCheck_keeps f v = true)
  /\ healthCheckFilter_Filter f vs = [Sample.healthy].
Proof.
  intros f vs.
  assert (Hlen : 2 <= len vs) by (unfold len; simpl; lia).
  assert (Hk : exists v, In v vs /\ spec_healthCheck_keeps f v = true).
  { exists Sample.healthy. split; [right; now left | reflexivity]. }
  split; [exact Hlen|]. split; [exact Hk|].
  etransitivity;
    [exact (healthCheckFilter_exact f vs Hlen Hk) | vm_compute; reflexivity].
Defined.

Lemma fail_then_backup_witness :
  let f := Sample.five_seconds in
  let now := 100 * Sample.second in
  let vs := [Sample.spare; Sample.primary; Sample.lately] in
  2 <= len vs
  /\ (exists p, In p vs /\ spec_failFilter_keeps f now p = true
                /\ isBackup p = false)
  /\ backupFilter_Filter (failFilter_Filter f now vs) = [Sample.primary].
Proof.
  intros f now vs.
  assert (Hlen : 2 <= len vs) by (unfold len; simpl; lia).
  assert (Hp : exists p, In p vs /\ spec_failFilter_keeps f now p = true
                         /\ isBackup p = false).
  { exists Sample.primary. split; [right; now left|]. split; reflexivity. }
  split; [exact Hlen|]. split; [exact Hp|].
  etransitivity;
    [exact (proj1 (fail_then_backup f now vs Hlen Hp))
    | vm_compute; reflexivity].
Defined.

Lemma fifo_after_failFilter_witness :
  let vs := [Sample.lately; Sample.long_ago; Sample.healthy] in
  2 <= len vs
  /\ fifoStrategy_Apply
       (failFilter_Filter Sample.five_seconds (100 * Sample.second) vs)
     = Some Sample.long_ago.
Proof.
  intros vs.
  assert (Hlen : 2 <= len vs) by (unfold len; simpl; lia).
  split; [exact Hlen|].
  etransitivity;
    [exact (fifo_after_failFilter Sample.five_seconds (100 * Sample.second)
              vs Hlen)
    | vm_compute; reflexivity].
Defined.

Lemma filter_sublist_mono {A : Type} (f g : A -> bool) (l : list A) :
  (forall x, f x = true -> g x = true) ->
  List.filter f l `sublist_of` List.filter g l.
Proof.
  intros Hfg. induction l as [|x l IH]; simpl; [constructor|].
  destruct (f x) eqn:F.
  - rewrite (Hfg x F). now constructor.
  - destruct (g x); [now constructor | exact IH].
Qed.

Lemma time_Since_mono (now now' t : Z) :
  now <= now' -> time_Since now t <= time_Since now' t.
Proof.
  unfold time_Since, time_Sub, MinInt64, MaxInt64. intros Hle.
  repeat match goal with
         | |- context [?a <? ?b] => destruct (Z.ltb_spec a b)
         end; lia.
Qed.

Section FailFilterTime.
Context {MD T : Type} `{SelectorConsts} `{MetadataOps MD} `{Candidate MD T}.

(** X7. With the markers unchanged, time only brings candidates back: a
    candidate FailFilter lets through at one instant it lets through at
    every later one, so the output at the earlier instant is a sublist of
    the output at the later one. *)
Theorem failFilter_later (f : failFilter) (now now' : Z) (vs : list T) :
  now <= now' ->
  failFilter_Filter f now vs `sublist_of` failFilter_Filter f now' vs.
Proof.
  intros Hle. rewrite !failFilter_Filter_spec.
  destruct (len vs <=? 1); [reflexivity|].
  apply filter_sublist_mono. intros v. unfold spec_failFilter_keeps.
  destruct (markerOf v) as [m|]; [|reflexivity].
  rewrite !orb_true_iff, !Z.ltb_lt, !Z.leb_le.
  pose proof (time_Since_mono now now' (Time m) Hle). lia.
Qed.

End FailFilterTime.

Lemma failFilter_later_witness :
  let vs := [Sample.lately; Sample.healthy] in
  100 * Sample.second <= 200 * Sample.second
  /\ failFilter_Filter Sample.five_seconds (100 * Sample.second) vs
     `sublist_of`
     failFilter_Filter Sample.five_seconds (200 * Sample.second) vs.
Proof.
  intros vs.
  assert (Hle : 100 * Sample.second <= 200 * Sample.second)
    by (unfold Sample.second; lia).
  exact (conj Hle (failFilter_later Sample.five_seconds _ _ vs Hle)).
Defined.

(** ** Further properties of the strategies *)

Section MoreArgmin.
Context {A : Type} (key : A -> Z).

(** The candidates the loop ends with are those of least key. *)
Lemma argmin_candidates (vs : list A) (top : Z) :
  vs <> [] -> (forall x, In x vs -> key x <= top) ->
  exists least,
    snd (fold_left (argmin_body key) vs (top, []))
    = List.filter (fun x => key x =? least) vs
    /\ (exists w, In w vs /\ key w = least)
    /\ (forall x, In x vs -> least <= key x).
Proof.
  intros Hne Htop.
  destruct (argmin_result key vs top Hne Htop)
    as (least & candidates & E & -> & Hc & Hmin).
  exists least. rewrite E. split; [reflexivity|]. split; [|exact Hmin].
  destruct (List.filter _ vs) as [|w ws] eqn:F; [congruence|].
  exists w.
  assert (Hw : In w (List.filter (fun x => key x =? least) vs))
    by (rewrite F; now left).
  apply filter_In in Hw as [Hw Hk]. split; [exact Hw | lia].
Qed.

Lemma argmin_unique (l1 l2 : list A) (c : A) (top : Z) :
  (forall x, In x (l1 ++ c :: l2) -> key x <= top) ->
  (forall x, In x (l1 ++ l2) -> key c < key x) ->
  snd (fold_left (argmin_body key) (l1 ++ c :: l2) (top, [])) = [c].
Proof.
  intros Htop Hothers.
  destruct (argmin_candidates (l1 ++ c :: l2) top)
    as (least & -> & (w & Hw & Hk) & Hmin);
    [now destruct l1 | exact Htop |].
  assert (Hleast : least = key c).
  { pose proof (Hmin c (in_elt c l1 l2)) as Hle.
    apply in_app_or in Hw as [Hw|[<-|Hw]]; [|lia|].
    - specialize (Hothers w (in_or_app _ _ _ (or_introl Hw))). lia.
    - specialize (Hothers w (in_or_app _ _ _ (or_intror Hw))). lia. }
  rewrite Hleast, List.filter_app. cbn [List.filter].
  rewrite Z.eqb_refl, !filter_none; [reflexivity | |].
  - intros x Hx. apply Z.eqb_neq.
    specialize (Hothers x (in_or_app _ _ _ (or_intror Hx))). lia.
  - intros x Hx. apply Z.eqb_neq.
    specialize (Hothers x (in_or_app _ _ _ (or_introl Hx))). lia.
Qed.

Lemma argmin_tied (vs : list A) (top : Z) :
  vs <> [] -> (forall x, In x vs -> key x <= top) ->
  (forall x y, In x vs -> In y vs -> key x = key y) ->
  snd (fold_left (argmin_body key) vs (top, [])) = vs.
Proof.
  intros Hne Htop Htied.
  destruct (argmin_candidates vs top Hne Htop)
    as (least & -> & (w & Hw & Hk) & _).
  apply filter_all. intros x Hx. apply Z.eqb_eq.
  rewrite <- Hk. now apply Htied.
Qed.

End MoreArgmin.

Section MoreStrategyFacts.
Context {MD T R : Type} `{SelectorConsts} `{MetadataOps MD} `{Candidate MD T}
  `{RandSource R}.

Lemma leastConn_Apply_pick (r : R) (vs : list T) :
  vs <> [] ->
  leastConnStrategy_Apply r vs
  = pick r (snd (fold_left (argmin_body connsOf) vs (MaxInt64, []))).
Proof.
  intros Hne. unfold leastConnStrategy_Apply. rewrite (len_eqb_0 vs Hne).
  change leastConn_body with (argmin_body connsOf).
  now destruct (fold_left _ vs _).
Qed.

Lemma leastLatency_Apply_pick (r : R) (vs : list T) :
  vs <> [] ->
  leastLatencyStrategy_Apply r vs
  = pick r (snd (fold_left (argmin_body latencyOf) vs (MaxInt64, []))).
Proof.
  intros Hne. unfold leastLatencyStrategy_Apply. rewrite (len_eqb_0 vs Hne).
  change leastLatency_body with (argmin_body latencyOf).
  now destruct (fold_left _ vs _).
Qed.

(** X8. On a non-empty list RoundRobin returns the candidate at index
    [counter mod N], [counter] being the value before the call, and moves
    the counter one up, back to 0 after [2^64 - 1]; the counter stays a
    [uint64]. *)
Theorem roundRobin_step (counter : Z) (vs : list T) :
  vs <> [] ->
  0 <= counter < 2 ^ 64 ->
  roundRobinStrategy_Apply counter vs
  = (if counter =? MaxUint64 then 0 else counter + 1,
     vs !! Z.to_nat (counter mod len vs))
  /\ 0 <= fst (roundRobinStrategy_Apply counter vs) < 2 ^ 64.
Proof.
  intros Hne Hc. rewrite roundRobin_Apply_spec by exact Hne.
  pose proof (len_pos vs Hne) as Hpos.
  assert (E : uint64 (counter + 1)
              = if counter =? MaxUint64 then 0 else counter + 1).
  { unfold uint64, MaxUint64.
    destruct (Z.eqb_spec counter (2 ^ 64 - 1)) as [->|N].
    - reflexivity.
    - apply Z.mod_small. lia. }
  split.
  - rewrite E. f_equal. unfold uint64. rewrite (Z.mod_small counter) by lia.
    unfold index.
    pose proof (Z.mod_pos_bound counter (len vs) Hpos).
    destruct (Z.ltb_spec (counter mod len vs) 0); [lia | reflexivity].
  - cbn [fst]. unfold uint64. apply Z.mod_pos_bound. lia.
Qed.

(** X9. On a non-empty list LeastLatency returns a candidate of the list
    whose latency, read as the largest duration for a candidate that is not
    a LatencyStater or reports a latency that is not positive, is minimal
    over the list. *)
Theorem leastLatency_minimal (r : R) (vs : list T) :
  vs <> [] ->
  exists v,
    snd (leastLatencyStrategy_Apply r vs) = Some v
    /\ In v vs
    /\ forall x, In x vs -> latencyOf v <= latencyOf x.
Proof.
  intros Hne.
  destruct (leastLatency_Apply_spec r vs Hne) as (least & -> & Hc & Hmin).
  destruct (pick_member r _ Hc) as (v & Hv & Hin).
  exists v. apply filter_In in Hin as [Hin Hk].
  split; [exact Hv|]. split; [exact Hin|].
  intros x Hx. apply Z.eqb_eq in Hk. rewrite Hk. now apply Hmin.
Qed.

(** X10. When one candidate is strictly better than every other (fewer
    connections, respectively a smaller latency), LeastConn and
    LeastLatency return it and do not touch the random generator. *)
Theorem least_unique (r : R) (l1 l2 : list T) (c : T) :
  ((forall x, In x (l1 ++ l2) -> connsOf c < connsOf x) ->
   leastConnStrategy_Apply r (l1 ++ c :: l2) = (r, Some c))
  /\ ((forall x, In x (l1 ++ l2) -> latencyOf c < latencyOf x) ->
      leastLatencyStrategy_Apply r (l1 ++ c :: l2) = (r, Some c)).
Proof.
  split; intros Hothers.
  - rewrite leastConn_Apply_pick by now destruct l1.
    rewrite argmin_unique; [reflexivity | | exact Hothers].
    intros x _. apply connsOf_le_max.
  - rewrite leastLatency_Apply_pick by now destruct l1.
    rewrite argmin_unique; [reflexivity | | exact Hothers].
    intros x _. apply latencyOf_le_max.
Qed.

(** X11. When all candidates are tied (the same number of connections,
    respectively the same latency, e.g. none of them measured), LeastConn
    and LeastLatency choose among the whole list: the single candidate of a
    one-element list, otherwise the candidate at the index drawn from the
    generator. *)
Theorem least_tied (r : R) (vs : list T) :
  vs <> [] ->
  ((forall x y, In x vs -> In y vs -> connsOf x = connsOf y) ->
   leastConnStrategy_Apply r vs = pick r vs)
  /\ ((forall x y, In x vs -> In y vs -> latencyOf x = latencyOf y) ->
      leastLatencyStrategy_Apply r vs = pick r vs).
Proof.
  intros Hne. split; intros Htied.
  - rewrite leastConn_Apply_pick by exact Hne.
    rewrite argmin_tied; [reflexivity | exact Hne | | exact Htied].
    intros x _. apply connsOf_le_max.
  - rewrite leastLatency_Apply_pick by exact Hne.
    rewrite argmin_tied; [reflexivity | exact Hne | | exact Htied].
    intros x _. apply latencyOf_le_max.
Qed.

End MoreStrategyFacts.

Lemma roundRobin_step_witness :
  Sample.abc <> []
  /\ 0 <= MaxUint64 < 2 ^ 64
  /\ roundRobinStrategy_Apply MaxUint64 Sample.abc
     = (0, Some (Sample.busy "a" 2)).
Proof.
  assert (Hne : Sample.abc <> []) by discriminate.
  assert (Hc : 0 <= MaxUint64 < 2 ^ 64) by (unfold MaxUint64; lia).
  split; [exact Hne|]. split; [exact Hc|].
  etransitivity;
    [exact (proj1 (roundRobin_step MaxUint64 Sample.abc Hne Hc))
    | vm_compute; reflexivity].
Defined.

Lemma leastLatency_minimal_witness :
  Sample2.latencies <> []
  /\ exists v,
       snd (leastLatencyStrategy_Apply 7 Sample2.latencies) = Some v
       /\ In v Sample2.latencies
       /\ forall x, In x Sample2.latencies -> latencyOf v <= latencyOf x.
Proof.
  assert (Hne : Sample2.latencies <> []) by discriminate.
  exact (conj Hne (leastLatency_minimal 7 Sample2.latencies Hne)).
Defined.

Lemma least_unique_witness :
  let fast := Sample2.timed "fast" 20000000 in
  let before := [Sample2.unmeasured; Sample2.timed "slow" 30000000] in
  let after := [Sample2.timed "off" 0] in
  (forall x, In x (before ++ after) -> latencyOf fast < latencyOf x)
  /\ leastLatencyStrategy_Apply 7 Sample2.latencies = (7, Some fast).
Proof.
  intros fast before after.
  assert (Hothers : forall x, In x (before ++ after) ->
                      latencyOf fast < latencyOf x).
  { intros x [<-|[<-|[<-|[]]]]; vm_compute; reflexivity. }
  exact (conj Hothers (proj2 (least_unique 7 before after fast) Hothers)).
Defined.

Lemma least_tied_witness :
  let vs := [Sample2.unmeasured; Sample2.timed "off" 0] in
  vs <> []
  /\ (forall x y, In x vs -> In y vs -> latencyOf x = latencyOf y)
  /\ leastLatencyStrategy_Apply 7 vs = pick 7 vs.
Proof.
  intros vs.
  assert (Hne : vs <> []) by discriminate.
  assert (Htied : forall x y, In x vs -> In y vs ->
                    latencyOf x = latencyOf y).
  { intros x y [<-|[<-|[]]] [<-|[<-|[]]]; reflexivity. }
  exact (conj Hne (conj Htied (proj2 (least_tied 7 vs Hne) Htied))).
Defined.

(** ** Further properties of the health checker *)

(** Case analysis on the first comparison [a <=? b] of the goal. *)
Ltac case_leb :=
  match goal with
  | |- context [?a <=? ?b] => destruct (Z.leb_spec a b)
  end.

Lemma fold_options_app (opts : list HealthCheckerOption)
  (opt : HealthCheckerOption) (hc : HealthChecker) :
  fold_left (fun hc o => o hc) (opts ++ [opt]) hc
  = opt (fold_left (fun hc o => o hc) opts hc).
Proof. now rewrite fold_left_app. Qed.

(** X12. Whatever options are given, a checker built by NewHealthChecker
    has a positive interval and a positive timeout. *)
Theorem NewHealthChecker_positive (opts : list HealthCheckerOption) :
  0 < Interval (config (NewHealthChecker opts))
  /\ 0 < Timeout (config (NewHealthChecker opts)).
Proof.
  unfold NewHealthChecker. cbv zeta.
  match goal with
  | |- context [fold_left ?f opts ?a] => generalize (fold_left f opts a)
  end. intros hc1.
  repeat case_leb; cbn in *; unfold Second; lia.
Qed.

(** X13. Options apply in order and the coercion comes last: a timeout
    option given last decides the timeout when it is positive and gives the
    default of five seconds otherwise, and an expected-status option given
    last decides the expected status, 0 and negative values included. *)
Theorem NewHealthChecker_last_option (opts : list HealthCheckerOption)
  (d status : Z) :
  Timeout (config (NewHealthChecker (opts ++ [HealthCheckTimeoutOption d])))
  = (if d <=? 0 then 5 * Second else d)
  /\ ExpectStatus
       (config (NewHealthChecker
                  (opts ++ [HealthCheckExpectStatusOption status])))
     = status.
Proof.
  unfold NewHealthChecker. cbv zeta. rewrite !fold_options_app.
  match goal with
  | |- context [fold_left ?f opts ?a] => generalize (fold_left f opts a)
  end. intros hc1. split.
  - destruct (Interval (config (HealthCheckTimeoutOption d hc1)) <=? 0);
      cbn; destruct (d <=? 0); reflexivity.
  - destruct (Interval (config (HealthCheckExpectStatusOption status hc1))
              <=? 0);
      cbn; destruct (Timeout (config hc1) <=? 0); reflexivity.
Qed.

(** X14. ParseHealthChecker builds a checker exactly for a non-nil
    configuration with health checks enabled.  Its type is HTTP only for
    the type name "http", non-positive durations become 30 s and 5 s, and
    path, expected status and logger are taken over as they are, so that
    the default expected status 200 of NewHealthChecker never applies. *)
Theorem ParseHealthChecker_config (cfg : option SelectorConfig) (log : bool) :
  ParseHealthChecker cfg log
  = match cfg with
    | None => None
    | Some c =>
        if cfg_HealthCheck c
        then Some (mkHealthChecker
                     (mkConfig
                        (if cfg_HealthInterval c <=? 0 then 30 * Second
                         else cfg_HealthInterval c)
                        (if cfg_HealthTimeout c <=? 0 then 5 * Second
                         else cfg_HealthTimeout c)
                        (if String.eqb (cfg_HealthCheckType c) "http"
                         then CheckTypeHTTP else CheckTypeTCP)
                        (cfg_HealthPath c)
                        (cfg_HealthExpectStatus c))
                     log)
        else None
    end.
Proof.
  destruct cfg as [c|]; [|reflexivity]. unfold ParseHealthChecker.
  destruct (cfg_HealthCheck c); [|reflexivity]. cbn [negb].
  unfold NewHealthChecker. cbn.
  destruct (cfg_HealthInterval c <=? 0); cbn;
    destruct (cfg_HealthTimeout c <=? 0); reflexivity.
Qed.

(** X15. The node selector uses the health-check filter exactly when
    ParseHealthChecker builds a checker for the same configuration. *)
Theorem health_filter_iff_checker (cfg : option SelectorConfig) (log : bool) :
  is_Some (ParseHealthChecker cfg log) <->
  exists sel f rest,
    ParseNodeSelector cfg = Some sel
    /\ sel_filters sel = AHealthCheckFilter f :: rest.
Proof.
  rewrite ParseHealthChecker_config. destruct cfg as [c|]; simpl.
  - destruct (cfg_HealthCheck c); split.
    + intros _. eexists _, _, _. split; reflexivity.
    + intros _. eauto.
    + intros [x Hx]. discriminate.
    + intros (sel & f & rest & E & F). simplify_eq/=.
  - split; [intros [x Hx]; discriminate|].
    intros (sel & f & rest & E & _). discriminate.
Qed.

(** X16. A chain selector is the node selector of the same configuration
    with health checks switched off: the same strategy for every strategy
    name, FailFilter then BackupFilter, and never the health-check
    filter. *)
Theorem ParseChainSelector_as_node (c : SelectorConfig) :
  ParseChainSelector (Some c)
  = ParseNodeSelector
      (Some (mkSelectorConfig (cfg_Strategy c) (cfg_MaxFails c)
               (cfg_FailTimeout c) false (cfg_HealthCheckType c)
               (cfg_HealthInterval c) (cfg_HealthTimeout c)
               (cfg_HealthPath c) (cfg_HealthExpectStatus c))).
Proof. reflexivity. Qed.

Section MoreHealthCheckFacts.
Context `{Network}.

Lemma check_probed (hc : HealthChecker) (now : Z) (w : World) (node : Node)
  (m : nat) :
  Addr node <> EmptyString ->
  Node_Marker node = Some m ->
  check hc now w (PNode (Some node))
  = match probe_error hc (Addr node) with
    | Some e =>
        debugf hc (LogFailed (Addr node) e)
          (on_marker (Marker_Mark now) m (probe (Addr node) w))
    | None =>
        debugf hc (LogPassed (Addr node))
          (on_marker Marker_Reset m (probe (Addr node) w))
    end.
Proof.
  intros Haddr Hm. unfold check, probe_error. cbn [as_Node].
  destruct (String.eqb_spec (Addr node) EmptyString); [congruence|].
  rewrite Hm. reflexivity.
Qed.

Lemma debugf_probed (hc : HealthChecker) (e : LogEntry) (w : World) :
  probed (debugf hc e w) = probed w.
Proof. unfold debugf. destruct (logger hc); reflexivity. Qed.

(** X17. The outcome of one probe of a node that has an address and a
    Marker [m]: the address is probed once; a failed probe raises the count
    of [m] by one and stamps it with the current time, a successful probe
    sets the count to 0 and keeps the time, whatever the count was; one
    line is logged when a logger is set. *)
Theorem check_outcome (hc : HealthChecker) (now : Z) (w : World)
  (node : Node) (m : nat) (old : Marker) :
  Addr node <> EmptyString ->
  Node_Marker node = Some m ->
  markers w !! m = Some old ->
  let w' := check hc now w (PNode (Some node)) in
  markers w' !! m
  = Some (match probe_error hc (Addr node) with
          | Some _ => mkMarker (Count old + 1) now
          | None => mkMarker 0 (Time old)
          end)
  /\ probed w' = probed w ++ [Addr node]
  /\ length (logs w')
     = (length (logs w) + if logger hc then 1 else 0)%nat.
Proof.
  intros Haddr Hm Hold w'. unfold w'.
  rewrite (check_probed hc now w node m Haddr Hm).
  destruct (probe_error hc (Addr node)) as [e|];
    rewrite debugf_markers, debugf_probed;
    cbn [on_marker probe markers probed];
    rewrite lookup_alter_eq, Hold;
    (split; [reflexivity|]); (split; [reflexivity|]);
    unfold debugf; destruct (logger hc); cbn [logs on_marker probe];
    rewrite ?length_app; simpl; lia.
Qed.


(** X19. A checker built without an expected-status option expects status
    200: its HTTP probe succeeds exactly when the answer to the GET of
    [http://addr/] has status 200. *)
Theorem default_checker_expects_200 (addr : string) :
  let hc := NewHealthChecker [HealthCheckTypeOption CheckTypeHTTP] in
  probe_error hc addr = None <->
  http_Get (5 * Second) ("http://" ++ addr ++ "/")%string = inr 200.
Proof.
  intros hc. change (probe_error hc addr) with (checkHTTP hc addr).
  etransitivity; [apply checkHTTP_success_iff|].
  change (ExpectStatus (config hc)) with 200.
  change (Timeout (config hc)) with (5 * Second).
  change (probe_url hc addr) with ("http://" ++ addr ++ "/")%string.
  split.
  - intros (status & E & _ & He). rewrite E, He by lia. reflexivity.
  - intros E. exists 200. split; [exact E | lia].
Qed.

(** X20. With the checker ParseHealthChecker builds from a configuration
    that asks for HTTP and sets no expected status, the probe succeeds
    exactly on a 2xx or 3xx answer. *)
Theorem parsed_checker_accepts_2xx_3xx (c : SelectorConfig) (log : bool)
  (hc : HealthChecker) (addr : string) :
  cfg_HealthCheckType c = "http"%string ->
  cfg_HealthExpectStatus c <= 0 ->
  ParseHealthChecker (Some c) log = Some hc ->
  (probe_error hc addr = None <->
   exists status,
     http_Get (Timeout (config hc)) (probe_url hc addr) = inr status
     /\ 200 <= status < 400).
Proof.
  intros Ht He Hhc. rewrite ParseHealthChecker_config in Hhc.
  destruct (cfg_HealthCheck c); [|discriminate].
  rewrite Ht in Hhc. cbn in Hhc. injection Hhc as <-.
  unfold probe_error. cbn [config Type_]. cbn [String.eqb Ascii.eqb Bool.eqb].
  etransitivity; [apply checkHTTP_success_iff|]. cbn [config ExpectStatus].
  split; intros (status & E & Hr); exists status; intuition lia.
Qed.

End MoreHealthCheckFacts.

Lemma check_outcome_witness :
  Addr Sample.down <> EmptyString
  /\ Node_Marker Sample.down = Some 1%nat
  /\ markers Sample.world !! 1%nat = Some (mkMarker 3 4)
  /\ markers (check Sample.dials 5 Sample.world (PNode (Some Sample.down)))
       !! 1%nat
     = Some (mkMarker 4 5).
Proof.
  assert (Haddr : Addr Sample.down <> EmptyString) by discriminate.
  assert (Hm : Node_Marker Sample.down = Some 1%nat) by reflexivity.
  assert (Hold : markers Sample.world !! 1%nat = Some (mkMarker 3 4))
    by (vm_compute; reflexivity).
  split; [exact Haddr|]. split; [exact Hm|]. split; [exact Hold|].
  exact (proj1 (check_outcome Sample.dials 5 Sample.world Sample.down 1
                  (mkMarker 3 4) Haddr Hm Hold)).
Defined.


Lemma parsed_checker_accepts_2xx_3xx_witness :
  cfg_HealthCheckType Sample2.health_on = "http"%string
  /\ cfg_HealthExpectStatus Sample2.health_on <= 0
  /\ (exists hc,
        ParseHealthChecker (Some Sample2.health_on) true = Some hc
        /\ probe_error hc "up:80" = None).
Proof.
  assert (Ht : cfg_HealthCheckType Sample2.health_on = "http"%string)
    by reflexivity.
  assert (He : cfg_HealthExpectStatus Sample2.health_on <= 0)
    by (simpl; lia).
  split; [exact Ht|]. split; [exact He|].
  eexists. split; [reflexivity|].
  apply (proj2 (parsed_checker_accepts_2xx_3xx Sample2.health_on true _
                  "up:80" Ht He eq_refl)).
  exists 200. split; [reflexivity | lia].
Defined.
